(** * ddrv rate limiter: a shallow embedding of [pkg/ddrv/rate.go]

    The limiter keeps one bucket per request path and one limiter-wide
    cool-down instant.  [Acquire] is called before a request and sleeps
    when the server asked us to wait; [Release] is called with the response
    headers and absorbs the server's view of the quota.

    The embedding follows the Go source statement by statement.  The Go
    standard library functions the source calls ([strconv], [time],
    [net/http]) are modelled in the first part of the file; the package
    itself starts at [ExtraDelay]. *)

From Stdlib Require Import ZArith Floats String Ascii List Lia.
From stdpp Require Import gmap strings list fin_maps.

Open Scope string_scope.
Open Scope Z_scope.

(** ** Machine integers

    Go's [int], [int64] and [uint64] are 64 bits wide on the platforms the
    package is built for.  They are represented by [Z]; every operation
    that can leave the range is followed by the wrap-around the hardware
    performs. *)

Definition minInt64 : Z := - 2 ^ 63.
Definition maxInt64 : Z := 2 ^ 63 - 1.
Definition maxUint64 : Z := 2 ^ 64 - 1.

Definition wrap_int64 (z : Z) : Z := (z + 2 ^ 63) mod 2 ^ 64 - 2 ^ 63.
Definition wrap_uint64 (z : Z) : Z := z mod 2 ^ 64.

Definition is_int64 (z : Z) : Prop := minInt64 <= z <= maxInt64.
Definition is_uint64 (z : Z) : Prop := 0 <= z <= maxUint64.

(** ** float64

    [float64] is IEEE 754 binary64, which is what Rocq's primitive floats
    are.  The two conversions the source uses are [int64(f)], which
    truncates toward zero, and [float64(i)], which rounds to nearest even.
    Go leaves [int64(f)] implementation-defined when [f] is NaN, infinite
    or out of range; the value below is the one amd64 produces. *)

Definition int64_of_float (f : float) : Z :=
  match Prim2SF f with
  | S754_zero _ => 0
  | S754_finite s m e =>
      let a := match e with
               | Z0 => Zpos m
               | Zpos k => Zpos m * 2 ^ Zpos k
               | Zneg k => Zpos m / 2 ^ Zpos k
               end in
      let z := if s then - a else a in
      if (minInt64 <=? z) && (z <=? maxInt64) then z else minInt64
  | _ => minInt64
  end.

Definition float_of_int64 (z : Z) : float :=
  SF2Prim (binary_normalize prec emax z 0 false).

(** ** Package [strconv] *)

Module strconv.

Inductive NumError := ErrSyntax | ErrRange.

(** The value of a decimal digit, [None] for any other byte. *)
Definition digit (c : ascii) : option Z :=
  let n := Z.of_N (N_of_ascii c) in
  if (48 <=? n) && (n <=? 57) then Some (n - 48) else None.

(** [cutoff] is the smallest number such that [cutoff * 10 > maxUint64]. *)
Definition cutoff10 : Z := maxUint64 / 10 + 1.

(** The digit loop of [ParseUint(s, 10, 64)]. *)
Fixpoint ParseUint_loop (s : string) (n : Z) : Z * option NumError :=
  match s with
  | EmptyString => (n, None)
  | String c s' =>
      match digit c with
      | None => (0, Some ErrSyntax)
      | Some d =>
          if cutoff10 <=? n then (maxUint64, Some ErrRange)
          else
            let n := wrap_uint64 (n * 10) in
            let n1 := wrap_uint64 (n + d) in
            if (n1 <? n) || (maxUint64 <? n1) then (maxUint64, Some ErrRange)
            else ParseUint_loop s' n1
      end
  end.

(** [strconv.ParseUint(s, 10, 64)]. *)
Definition ParseUint (s : string) : Z * option NumError :=
  if bool_decide (s = "") then (0, Some ErrSyntax) else ParseUint_loop s 0.

(** [strconv.ParseInt(s, 10, 0)] with a 64-bit [int]. *)
Definition ParseInt (s : string) : Z * option NumError :=
  match s with
  | EmptyString => (0, Some ErrSyntax)
  | String c rest =>
      let neg := bool_decide (c = "-"%char) in
      let s := if bool_decide (c = "+"%char) || neg then rest else s in
      let '(un, err) := ParseUint s in
      match err with
      | Some ErrSyntax => (0, err)
      | _ =>
          let cutoff := 2 ^ 63 in
          if negb neg && (cutoff <=? un) then (cutoff - 1, Some ErrRange)
          else if neg && (cutoff <? un) then (- cutoff, Some ErrRange)
          else (if neg then - un else un, None)
      end
  end.

(** The digit loop of the fast path of [Atoi]. *)
Fixpoint Atoi_loop (s : string) (n : Z) : Z * option NumError :=
  match s with
  | EmptyString => (n, None)
  | String ch s' =>
      let ch := (Z.of_N (N_of_ascii ch) - 48) mod 256 in
      if 9 <? ch then (0, Some ErrSyntax)
      else Atoi_loop s' (n * 10 + ch)
  end.

(** [strconv.Atoi(s)]: strings of 1 to 18 bytes take the fast path, the
    others go through [ParseInt]. *)
Definition Atoi (s : string) : Z * option NumError :=
  let sLen := Z.of_nat (String.length s) in
  if (0 <? sLen) && (sLen <? 19) then
    match s with
    | EmptyString => (0, Some ErrSyntax)
    | String c rest =>
        let signed := bool_decide (c = "-"%char) || bool_decide (c = "+"%char) in
        let s' := if signed then rest else s in
        if signed && (Z.of_nat (String.length s') <? 1) then (0, Some ErrSyntax)
        else
          let '(n, err) := Atoi_loop s' 0 in
          match err with
          | Some _ => (0, err)
          | None => (if bool_decide (c = "-"%char) then - n else n, None)
          end
    end
  else ParseInt s.

End strconv.

(** ** Package [time]

    An instant is the number of nanoseconds since the Unix epoch, a
    duration is a number of nanoseconds held in an [int64].  Go stores an
    instant as 64-bit seconds plus nanoseconds; that range (hundreds of
    billions of years) is not modelled, instants are unbounded. *)

Module time.

Abbreviation Time := Z.
Abbreviation Duration := Z.

Definition Nanosecond : Duration := 1.
Definition Millisecond : Duration := 1000000 * Nanosecond.
Definition Second : Duration := 1000 * Millisecond.

Definition minDuration : Duration := minInt64.
Definition maxDuration : Duration := maxInt64.

(** The zero [Time], January 1, year 1, 00:00:00 UTC. *)
Definition zero : Time := -62135596800 * Second.

Definition After (t u : Time) : bool := u <? t.

(** [t.Sub(u)] saturates at the largest and smallest [Duration]. *)
Definition Sub (t u : Time) : Duration :=
  let d := t - u in
  if d <? minDuration then minDuration
  else if maxDuration <? d then maxDuration
  else d.

Definition Add (t : Time) (d : Duration) : Time := t + d.

Definition Unix (sec nsec : Z) : Time := sec * Second + nsec.

End time.

(** ** Package [net/http]: the header map *)

Module http.

Definition is_lower (c : ascii) : bool :=
  let n := N_of_ascii c in ((97 <=? n) && (n <=? 122))%N.
Definition is_upper (c : ascii) : bool :=
  let n := N_of_ascii c in ((65 <=? n) && (n <=? 90))%N.

(** Canonical form of a header name made of letters, digits and dashes:
    upper case at the start and after each dash, lower case elsewhere. *)
Fixpoint canonical (upper : bool) (s : string) : string :=
  match s with
  | EmptyString => EmptyString
  | String c s' =>
      let c' :=
        if upper && is_lower c then ascii_of_N (N_of_ascii c - 32)
        else if negb upper && is_upper c then ascii_of_N (N_of_ascii c + 32)
        else c in
      String c' (canonical (bool_decide (c' = "-"%char)) s')
  end.

Definition CanonicalHeaderKey (s : string) : string := canonical true s.

Abbreviation Header := (gmap string (list string)).

(** [h.Get(key)]: the first value stored under the canonical form of
    [key], the empty string when there is none. *)
Definition Get (h : Header) (key : string) : string :=
  match h !! CanonicalHeaderKey key with
  | Some (v :: _) => v
  | _ => ""
  end.

End http.

(** ** The store

    A [*bucket] is an address in [heap], or nil ([None]); the limiter's
    [buckets] map holds addresses, as the Go map holds pointers.  The
    limiter is used through one pointer, so its two fields live in the
    state directly.  [clock] is the instant [time.Now] reads and [sleeps]
    logs the argument of every call of [time.Sleep], oldest first.

    The two mutexes of the source are not represented: operations run one
    at a time here, where every [Lock] succeeds at once and is released
    before the operation ends. *)

Abbreviation loc := positive.

Record bucket := mkBucket {
  reset : time.Time;
  remaining : Z
}.

Record State := mkState {
  heap : gmap loc bucket;
  buckets : gmap string loc;
  global : time.Time;
  clock : time.Time;
  sleeps : list time.Duration
}.

Definition with_heap (h : gmap loc bucket) (s : State) : State :=
  mkState h (buckets s) (global s) (clock s) (sleeps s).
Definition with_buckets (m : gmap string loc) (s : State) : State :=
  mkState (heap s) m (global s) (clock s) (sleeps s).
Definition with_global (t : time.Time) (s : State) : State :=
  mkState (heap s) (buckets s) t (clock s) (sleeps s).

(** ** Statements

    A statement either falls through to the next one with a value, or
    executes [return], or panics on a nil pointer. *)

Inductive outcome (A : Type) : Type :=
| Next (a : A) (s : State)
| Return (s : State)
| Panic.
Arguments Next {A} a s.
Arguments Return {A} s.
Arguments Panic {A}.

Definition M (A : Type) : Type := State -> outcome A.

Definition ret {A} (a : A) : M A := fun s => Next a s.

Definition bind {A B} (m : M A) (k : A -> M B) : M B :=
  fun s =>
    match m s with
    | Next a s' => k a s'
    | Return s' => Return s'
    | Panic => Panic
    end.

Declare Scope go_scope.
Delimit Scope go_scope with go.
Notation "x <- m ;; k" := (bind m (fun x => k))
  (at level 100, m at next level, k at level 200, right associativity) : go_scope.
Notation "m ;; k" := (bind m (fun _ => k))
  (at level 100, k at level 200, right associativity) : go_scope.
Open Scope go_scope.

(** The statement [return]. *)
Definition return_ {A} : M A := fun s => Return s.

(** A function without result: the call is over when the body returns or
    runs off its end. *)
Definition func (body : M unit) : M unit :=
  fun s =>
    match body s with
    | Next _ s' | Return s' => Next tt s'
    | Panic => Panic
    end.

Definition skip : M unit := ret tt.

(** [time.Now()] and [time.Sleep(d)].  A sleep of a non-positive duration
    returns at once; otherwise the clock has advanced by [d] when it
    returns. *)
Definition time_Now : M time.Time := fun s => Next (clock s) s.

Definition time_Sleep (d : time.Duration) : M unit :=
  fun s => Next tt (mkState (heap s) (buckets s) (global s)
                            (clock s + Z.max d 0) (sleeps s ++ [d])).

(** [l.global] and [l.global = t]. *)
Definition l_global : M time.Time := fun s => Next (global s) s.
Definition set_l_global (t : time.Time) : M unit := fun s => Next tt (with_global t s).

(** [b, ok := l.buckets[path]] and [l.buckets[path] = b]. *)
Definition l_buckets_lookup (path : string) : M (option loc * bool) :=
  fun s => Next (buckets s !! path, bool_decide (is_Some (buckets s !! path))) s.
Definition l_buckets_store (path : string) (p : loc) : M unit :=
  fun s => Next tt (with_buckets (<[path := p]> (buckets s)) s).

(** [&bucket{...}]: a new object at an address not in use. *)
Definition new (v : bucket) : M loc :=
  fun s => let p := fresh (dom (heap s)) in Next p (with_heap (<[p := v]> (heap s)) s).

(** Reading and writing the fields of [*b]. *)
Definition deref (b : option loc) : M (loc * bucket) :=
  fun s =>
    match b with
    | Some p => match heap s !! p with
                | Some v => Next (p, v) s
                | None => Panic
                end
    | None => Panic
    end.

Definition b_remaining (b : option loc) : M Z :=
  pv <- deref b ;; ret (remaining pv.2).
Definition b_reset (b : option loc) : M time.Time :=
  pv <- deref b ;; ret (reset pv.2).
Definition set_b_remaining (b : option loc) (u : Z) : M unit :=
  pv <- deref b ;;
  fun s => Next tt (with_heap (<[pv.1 := mkBucket (reset pv.2) u]> (heap s)) s).
Definition set_b_reset (b : option loc) (t : time.Time) : M unit :=
  pv <- deref b ;;
  fun s => Next tt (with_heap (<[pv.1 := mkBucket t (remaining pv.2)]> (heap s)) s).

(** ** The package *)

Definition ExtraDelay : time.Duration := 250 * time.Millisecond.

(** [NewLimiter()], called when the clock reads [now]. *)
Definition NewLimiter (now : time.Time) : State :=
  mkState ∅ ∅ time.zero now [].

Definition getBucket (path : string) (store : bool) : M (option loc) :=
  bok <- l_buckets_lookup path ;;
  let '(b, ok) := bok in
  if negb ok && store then
    p <- new (mkBucket time.zero 1) ;;
    l_buckets_store path p ;;
    ret (Some p)
  else ret b.

Definition Acquire (path : string) : M unit :=
  func (
    now <- time_Now ;;
    (* Check global rate limit *)
    g <- l_global ;;
    (if time.After g now
     then time_Sleep (wrap_int64 (time.Sub g now + ExtraDelay))
     else skip) ;;
    b <- getBucket path true ;;
    (* Check bucket-specific rate limit *)
    r <- b_remaining b ;;
    t <- b_reset b ;;
    (if (r =? 0) && time.After t now
     then time_Sleep (wrap_int64 (time.Sub t now + ExtraDelay))
     else skip) ;;
    r <- b_remaining b ;;
    if 0 <? r
    then set_b_remaining b (wrap_uint64 (r - 1))
    else skip).

Section Limiter.

(** [strconv.ParseFloat(s, 64)], correctly rounded decimal and
    hexadecimal input with NaN and the infinities, is not modelled; the
    development holds for whatever function it is. *)
Variable ParseFloat : string -> float * option strconv.NumError.

Definition Release (path : string) (headers : http.Header) : M unit :=
  func (
    b <- getBucket path false ;;
    (* Continue if no specific bucket was found *)
    (if bool_decide (b = None) then return_ else skip) ;;
    let global := http.Get headers "X-RateLimit-Global" in
    let remaining := http.Get headers "X-RateLimit-Remaining" in
    let reset := http.Get headers "X-RateLimit-Reset" in
    let retryAfter := http.Get headers "Retry-After" in
    (if bool_decide (retryAfter ≠ "") then
       let '(i, err) := strconv.Atoi retryAfter in
       (if bool_decide (err ≠ None) then return_ else skip) ;;
       now <- time_Now ;;
       let at_ := time.Add now (wrap_int64 (i * time.Second)) in
       (* probably "true" *)
       if bool_decide (global ≠ "")
       then set_l_global at_
       else set_b_reset b at_
     else if bool_decide (reset ≠ "") then
       let '(unix, err) := ParseFloat reset in
       (if bool_decide (err ≠ None) then return_ else skip) ;;
       let sec := int64_of_float unix in
       let nsec := int64_of_float
                     ((unix - float_of_int64 sec) * float_of_int64 time.Second)%float in
       set_b_reset b (time.Add (time.Unix sec nsec) ExtraDelay)
     else skip) ;;
    (if bool_decide (remaining ≠ "") then
       let '(u, err) := strconv.ParseUint remaining in
       (if bool_decide (err ≠ None) then return_ else skip) ;;
       set_b_remaining b u
     else skip) ;;
    return_).


(** ** Vocabulary of the properties *)

(** [Acquire] as section 4.1 of the specification words it: step 4
    evaluates [now] again after the wait of step 2.  Only used to compare
    with [Acquire]. *)
Definition Acquire_rereading_now (path : string) : M unit :=
  func (
    now <- time_Now ;;
    g <- l_global ;;
    (if time.After g now
     then time_Sleep (wrap_int64 (time.Sub g now + ExtraDelay))
     else skip) ;;
    b <- getBucket path true ;;
    now <- time_Now ;;
    r <- b_remaining b ;;
    t <- b_reset b ;;
    (if (r =? 0) && time.After t now
     then time_Sleep (wrap_int64 (time.Sub t now + ExtraDelay))
     else skip) ;;
    r <- b_remaining b ;;
    if 0 <? r
    then set_b_remaining b (wrap_uint64 (r - 1))
    else skip).

(** The bucket a path is mapped to, if any. *)
Definition bucket_at (s : State) (path : string) : option bucket :=
  match buckets s !! path with
  | Some p => heap s !! p
  | None => None
  end.

(** The sleep the global cool-down asks for at the instant [clock s], as
    a list of zero or one duration. *)
Definition global_wait (s : State) : list time.Duration :=
  if time.After (global s) (clock s)
  then [wrap_int64 (time.Sub (global s) (clock s) + ExtraDelay)]
  else [].

(** The sleep an exhausted bucket [v] asks for at the instant [now]. *)
Definition bucket_wait (now : time.Time) (v : bucket) : list time.Duration :=
  if (remaining v =? 0) && time.After (reset v) now
  then [wrap_int64 (time.Sub (reset v) now + ExtraDelay)]
  else [].

(** Time spent in a list of sleeps. *)
Definition elapsed (l : list time.Duration) : Z :=
  foldr (fun d acc => Z.max d 0 + acc) 0 l.

(** States the package can build: every pointer held by the map is
    allocated, two paths never share a bucket, and [remaining] holds a
    [uint64]. *)
Record wf (s : State) : Prop := mkWf {
  wf_alloc : forall path p, buckets s !! path = Some p -> is_Some (heap s !! p);
  wf_inj : forall path1 path2 p,
    buckets s !! path1 = Some p -> buckets s !! path2 = Some p -> path1 = path2;
  wf_uint64 : forall p v, heap s !! p = Some v -> is_uint64 (remaining v)
}.

(** Time passing between two calls. *)
Definition elapse (d : time.Duration) (s : State) : State :=
  mkState (heap s) (buckets s) (global s) (clock s + d) (sleeps s).

(** The states of a limiter made by [NewLimiter] and used through
    [Acquire] and [Release] only. *)
Inductive reachable : State -> Prop :=
| reach_NewLimiter now : reachable (NewLimiter now)
| reach_Acquire s path s' :
    reachable s -> Acquire path s = Next tt s' -> reachable s'
| reach_Release s path headers s' :
    reachable s -> Release path headers s = Next tt s' -> reachable s'
| reach_elapse s d :
    reachable s -> 0 <= d -> reachable (elapse d s).

(** [n] calls of [Acquire path] in a row. *)
Fixpoint Acquire_times (n : nat) (path : string) : M unit :=
  match n with
  | O => skip
  | S n' => Acquire path ;; Acquire_times n' path
  end.

(** ** Inputs of the examples *)

(** A limiter with one bucket, for the path ["k"]. *)
Definition one_bucket (now g : time.Time) (v : bucket) : State :=
  mkState {[ 1%positive := v ]} {[ "k" := 1%positive ]} g now [].

(** A stand-in for [ParseFloat] that knows one timestamp. *)
Definition ParseFloat_sample (s : string) : float * option strconv.NumError :=
  if bool_decide (s = "1700000000.5") then (1700000000.5%float, None)
  else (0%float, Some strconv.ErrSyntax).

(** * Properties *)

(** ** Symbolic execution of the statements *)

Arguments http.Get : simpl never.
Arguments strconv.Atoi : simpl never.
Arguments strconv.ParseUint : simpl never.
Arguments wrap_int64 : simpl never.
Arguments wrap_uint64 : simpl never.
Arguments int64_of_float : simpl never.
Arguments float_of_int64 : simpl never.
Arguments time.Add : simpl never.
Arguments time.Sub : simpl never.
Arguments time.Unix : simpl never.
Arguments time.After : simpl never.

Ltac go_unfold :=
  cbv beta iota zeta delta
    [func bind getBucket l_buckets_lookup l_buckets_store new
     b_remaining b_reset set_b_remaining set_b_reset deref l_global
     set_l_global time_Now time_Sleep skip ret return_
     with_heap with_buckets with_global];
  cbn [heap buckets global clock sleeps fst snd].

Ltac go_proj :=
  cbn [heap buckets global clock sleeps fst snd reset remaining negb andb orb
       Z.eqb Z.ltb Z.compare].

Lemma bool_decide_is_Some {A} (x : A) : bool_decide (is_Some (Some x)) = true.
Proof. apply bool_decide_eq_true_2. eauto. Qed.

Lemma bool_decide_is_Some_None {A} : bool_decide (is_Some (@None A)) = false.
Proof. apply bool_decide_eq_false_2. intros [? ?]. discriminate. Qed.

Lemma state_eta s :
  mkState (heap s) (buckets s) (global s) (clock s) (sleeps s) = s.
Proof. destruct s. reflexivity. Qed.

Lemma getBucket_found s path store p :
  buckets s !! path = Some p -> getBucket path store s = Next (Some p) s.
Proof.
  intros Hb. go_unfold. rewrite Hb, bool_decide_is_Some. reflexivity.
Qed.

Lemma getBucket_absent s path :
  buckets s !! path = None -> getBucket path false s = Next None s.
Proof.
  intros Hb. go_unfold. rewrite Hb, (@bool_decide_is_Some_None loc). reflexivity.
Qed.

Lemma getBucket_create s path :
  buckets s !! path = None ->
  getBucket path true s =
    Next (Some (fresh (dom (heap s))))
         (mkState (<[fresh (dom (heap s)) := mkBucket time.zero 1]> (heap s))
                  (<[path := fresh (dom (heap s))]> (buckets s))
                  (global s) (clock s) (sleeps s)).
Proof.
  intros Hb. go_unfold. rewrite Hb, (@bool_decide_is_Some_None loc). reflexivity.
Qed.

Lemma fresh_unallocated (h : gmap loc bucket) : h !! fresh (dom h) = None.
Proof. apply not_elem_of_dom. apply is_fresh. Qed.

(** [Acquire] on a path that has a bucket. *)
Lemma Acquire_existing s path p v :
  buckets s !! path = Some p -> heap s !! p = Some v ->
  Acquire path s =
    Next tt (mkState
      (if 0 <? remaining v
       then <[p := mkBucket (reset v) (wrap_uint64 (remaining v - 1))]> (heap s)
       else heap s)
      (buckets s) (global s)
      (clock s + elapsed (global_wait s ++ bucket_wait (clock s) v))
      (sleeps s ++ global_wait s ++ bucket_wait (clock s) v)).
Proof.
  intros Hb Hh. unfold Acquire, global_wait, bucket_wait.
  destruct (time.After (global s) (clock s)) eqn:Eg;
    destruct ((remaining v =? 0) && time.After (reset v) (clock s)) eqn:Eb;
    destruct (0 <? remaining v) eqn:Er;
    go_unfold;
    repeat (go_proj; rewrite ?Eg, ?Eb, ?Er, ?Hh, ?Hb, ?(bool_decide_is_Some p));
    rewrite ?app_nil_r, <- ?app_assoc; destruct s; simpl; do 2 f_equal; lia.
Qed.

(** [Acquire] on a path that has no bucket yet. *)
Lemma Acquire_fresh s path :
  buckets s !! path = None ->
  Acquire path s =
    Next tt (mkState
      (<[fresh (dom (heap s)) := mkBucket time.zero 0]> (heap s))
      (<[path := fresh (dom (heap s))]> (buckets s))
      (global s)
      (clock s + elapsed (global_wait s))
      (sleeps s ++ global_wait s)).
Proof.
  intros Hb. unfold Acquire, global_wait.
  destruct (time.After (global s) (clock s)) eqn:Eg;
    go_unfold;
    repeat (go_proj; rewrite ?Eg, ?Hb, ?(@bool_decide_is_Some_None loc),
              ?lookup_insert_eq);
    change (wrap_uint64 (1 - 1)) with 0;
    rewrite ?insert_insert_eq, ?app_nil_r; simpl; do 2 f_equal; lia.
Qed.

Ltac go_step :=
  first
    [ progress go_proj
    | match goal with
      | H : buckets ?s !! ?k = _ |- context [buckets ?s !! ?k] => rewrite H
      | H : heap ?s !! ?p = _ |- context [heap ?s !! ?p] => rewrite H
      | |- context [bool_decide (is_Some (Some ?p))] =>
          rewrite (bool_decide_is_Some p)
      | |- context [bool_decide (is_Some (@None ?A))] =>
          rewrite (@bool_decide_is_Some_None A)
      | |- context [<[?p := ?v]> ?h !! ?p] => rewrite (lookup_insert_eq h p v)
      | H : ?e = (_, _) |- context [?e] => rewrite H
      | |- context [@bool_decide ?P ?d] => destruct (@bool_decide_reflect P d)
      | |- context [match ?e with (_, _) => _ end] => destruct e eqn:?
      end ].

Ltac go_run := go_unfold; repeat go_step.

Lemma bucket_eta v : mkBucket (reset v) (remaining v) = v.
Proof. destruct v. reflexivity. Qed.

Lemma not_not_None {A} (o : option A) : ~ o <> None -> o = None.
Proof. destruct o; [intros H; exfalso; apply H; discriminate | reflexivity]. Qed.

Ltac go_clean :=
  repeat match goal with
    | H : ~ ?o <> None |- _ => apply not_not_None in H; subst o
    | H : ~ ?x <> "" |- _ => apply dec_stable in H
    end.

(** The shape of every result of [Release] on a path that has a bucket:
    the bucket may be rewritten and the global cool-down may change, the
    rest of the state does not. *)
Lemma Release_existing s path headers p v :
  buckets s !! path = Some p -> heap s !! p = Some v ->
  exists s' v',
    Release path headers s = Next tt s' /\
    heap s' = <[p := v']> (heap s) /\
    buckets s' = buckets s /\ clock s' = clock s /\ sleeps s' = sleeps s /\
    (remaining v' = remaining v \/
     strconv.ParseUint (http.Get headers "X-RateLimit-Remaining")
       = (remaining v', None)).
Proof.
  intros Hb Hh. unfold Release. go_run; try congruence; go_clean.
  all: eexists; eexists; split; [reflexivity|]; go_proj.
  all: rewrite ?insert_insert_eq.
  all: first
    [ split; [reflexivity|]; go_proj; auto
    | split; [symmetry; apply (insert_id _ _ _ Hh)|]; auto ].
Qed.

(** [Release] on a path that has no bucket. *)
Lemma Release_absent s path headers :
  buckets s !! path = None -> Release path headers s = Next tt s.
Proof.
  intros Hb. unfold Release. go_run; first [reflexivity | congruence].
Qed.

(** ** Results of the parsers *)

Lemma wrap_uint64_range z : is_uint64 (wrap_uint64 z).
Proof.
  unfold is_uint64, wrap_uint64, maxUint64.
  pose proof (Z.mod_pos_bound z (2 ^ 64)). lia.
Qed.

Lemma wrap_uint64_id z : is_uint64 z -> wrap_uint64 z = z.
Proof.
  unfold is_uint64, wrap_uint64, maxUint64. intros H.
  apply Z.mod_small. lia.
Qed.

Lemma wrap_int64_id z : is_int64 z -> wrap_int64 z = z.
Proof.
  unfold is_int64, wrap_int64, minInt64, maxInt64. intros H.
  rewrite Z.mod_small; lia.
Qed.

Lemma ParseUint_loop_range str : forall n r,
  is_uint64 n -> strconv.ParseUint_loop str n = (r, None) -> is_uint64 r.
Proof.
  induction str as [|c str IH]; intros n r Hn; simpl.
  - intros [= <-]. exact Hn.
  - destruct (strconv.digit c) as [d|]; [|discriminate].
    destruct (strconv.cutoff10 <=? n); [discriminate|].
    destruct (_ || _); [discriminate|].
    apply IH, wrap_uint64_range.
Qed.

Lemma ParseUint_range str r :
  strconv.ParseUint str = (r, None) -> is_uint64 r.
Proof.
  unfold strconv.ParseUint. case_bool_decide; [discriminate|].
  apply ParseUint_loop_range. unfold is_uint64, maxUint64. lia.
Qed.

(** ** Well-formed states *)

Lemma wf_NewLimiter now : wf (NewLimiter now).
Proof.
  split; simpl; intros *; rewrite lookup_empty; discriminate.
Qed.

Lemma wf_elapse d s : wf s -> wf (elapse d s).
Proof. intros [H1 H2 H3]. split; simpl; assumption. Qed.

(** Overwriting an allocated bucket keeps the state well formed. *)
Lemma wf_overwrite s s' p v' :
  wf s -> is_Some (heap s !! p) -> is_uint64 (remaining v') ->
  heap s' = <[p := v']> (heap s) -> buckets s' = buckets s -> wf s'.
Proof.
  intros [H1 H2 H3] Hp Hv Hh Hb. split; rewrite ?Hh, ?Hb.
  - intros path q Hq. destruct (decide (p = q)) as [->|Hne].
    + rewrite lookup_insert_eq. eauto.
    + rewrite lookup_insert_ne by done. eauto.
  - exact H2.
  - intros q w. destruct (decide (p = q)) as [->|Hne].
    + rewrite lookup_insert_eq. intros [= <-]. exact Hv.
    + rewrite lookup_insert_ne by done. eauto.
Qed.

(** Mapping a new path to a new bucket keeps the state well formed. *)
Lemma wf_insert s s' path v' :
  wf s -> buckets s !! path = None -> is_uint64 (remaining v') ->
  heap s' = <[fresh (dom (heap s)) := v']> (heap s) ->
  buckets s' = <[path := fresh (dom (heap s))]> (buckets s) -> wf s'.
Proof.
  intros [H1 H2 H3] Hnone Hv Hh Hb.
  pose proof (fresh_unallocated (heap s)) as Hf.
  assert (Hold : forall k, buckets s !! k <> Some (fresh (dom (heap s)))).
  { intros k Hk. apply H1 in Hk. rewrite Hf in Hk. destruct Hk. discriminate. }
  split; rewrite ?Hh, ?Hb.
  - intros k q. destruct (decide (path = k)) as [->|Hne].
    + rewrite lookup_insert_eq. intros [= <-]. rewrite lookup_insert_eq. eauto.
    + rewrite lookup_insert_ne by done. intros Hk.
      rewrite lookup_insert_ne by (intros <-; exact (Hold _ Hk)). eauto.
  - intros k1 k2 q.
    destruct (decide (path = k1)) as [<-|Hne1];
      destruct (decide (path = k2)) as [<-|Hne2];
      rewrite ?lookup_insert_eq, ?lookup_insert_ne by done; try done.
    + intros [= <-] Hk. destruct (Hold _ Hk).
    + intros Hk [= <-]. destruct (Hold _ Hk).
    + apply H2.
  - intros q w. destruct (decide (fresh (dom (heap s)) = q)) as [<-|Hne].
    + rewrite lookup_insert_eq. intros [= <-]. exact Hv.
    + rewrite lookup_insert_ne by done. eauto.
Qed.

Lemma wf_Acquire s path s' : wf s -> Acquire path s = Next tt s' -> wf s'.
Proof.
  intros Hwf. destruct (buckets s !! path) as [p|] eqn:Hb.
  - destruct (wf_alloc s Hwf _ _ Hb) as [v Hh].
    rewrite (Acquire_existing s path p v Hb Hh). intros [= <-].
    destruct (0 <? remaining v).
    + eapply wf_overwrite with (p := p); eauto; apply wrap_uint64_range.
    + destruct Hwf as [H1 H2 H3]. split; simpl; assumption.
  - rewrite (Acquire_fresh s path Hb). intros [= <-].
    eapply wf_insert; eauto. simpl. unfold is_uint64, maxUint64. lia.
Qed.

Lemma wf_Release s path headers s' :
  wf s -> Release path headers s = Next tt s' -> wf s'.
Proof.
  intros Hwf. destruct (buckets s !! path) as [p|] eqn:Hb.
  - destruct (wf_alloc s Hwf _ _ Hb) as [v Hh].
    destruct (Release_existing s path headers p v Hb Hh)
      as (s1 & v' & -> & Hheap & Hbk & _ & _ & Hr).
    intros [= <-]. eapply wf_overwrite with (p := p); eauto.
    destruct Hr as [-> | Hr].
    + eapply wf_uint64; eauto.
    + eapply ParseUint_range; eauto.
  - rewrite (Release_absent s path headers Hb). intros [= <-]. exact Hwf.
Qed.

Lemma reachable_wf s : reachable s -> wf s.
Proof.
  induction 1; eauto using wf_NewLimiter, wf_Acquire, wf_Release, wf_elapse.
Qed.

(** The operations return on every well-formed state. *)
Lemma Acquire_returns s path : wf s -> exists s', Acquire path s = Next tt s'.
Proof.
  intros Hwf. destruct (buckets s !! path) as [p|] eqn:Hb.
  - destruct (wf_alloc s Hwf _ _ Hb) as [v Hh].
    rewrite (Acquire_existing s path p v Hb Hh). eauto.
  - rewrite (Acquire_fresh s path Hb). eauto.
Qed.

Lemma Release_returns s path headers :
  wf s -> exists s', Release path headers s = Next tt s'.
Proof.
  intros Hwf. destruct (buckets s !! path) as [p|] eqn:Hb.
  - destruct (wf_alloc s Hwf _ _ Hb) as [v Hh].
    destruct (Release_existing s path headers p v Hb Hh) as (s1 & v' & -> & _).
    eauto.
  - rewrite (Release_absent s path headers Hb). eauto.
Qed.

(** ** Headers *)

Lemma Get_delete (h : http.Header) k key :
  http.Get (delete k h) key =
    if decide (k = http.CanonicalHeaderKey key) then "" else http.Get h key.
Proof.
  unfold http.Get. rewrite lookup_delete. destruct (decide _); reflexivity.
Qed.

Ltac go_done := first [reflexivity | congruence | contradiction].

(** ** Behaviour of [Release] *)

(** C4.  On an existing bucket, a malformed Retry-After, or a malformed
    X-RateLimit-Reset when Retry-After is absent, makes [Release] return
    with the whole state as it was: a valid X-RateLimit-Remaining [u] in the
    same headers is not applied and the bucket keeps its [remaining]. *)
Theorem Release_malformed_suppresses_remaining s path headers p v u :
  buckets s !! path = Some p -> heap s !! p = Some v ->
  (http.Get headers "Retry-After" <> "" /\
   (strconv.Atoi (http.Get headers "Retry-After")).2 <> None) \/
  (http.Get headers "Retry-After" = "" /\
   http.Get headers "X-RateLimit-Reset" <> "" /\
   (ParseFloat (http.Get headers "X-RateLimit-Reset")).2 <> None) ->
  http.Get headers "X-RateLimit-Remaining" <> "" ->
  strconv.ParseUint (http.Get headers "X-RateLimit-Remaining") = (u, None) ->
  Release path headers s = Next tt s /\
  bucket_at s path = Some v.
Proof.
  intros Hb Hh Hbad Hrem Hu. split.
  - unfold Release.
    destruct Hbad as [[Hra Herr] | (Hra & Hrs & Herr)].
    + destruct (strconv.Atoi _) as [i err] eqn:Ha. simpl in Herr.
      go_run; go_done.
    + destruct (ParseFloat _) as [f err] eqn:Hf. simpl in Herr.
      go_run; go_done.
  - unfold bucket_at. rewrite Hb. exact Hh.
Qed.

Lemma Get_delete_Remaining (h : http.Header) :
  let h' := delete (http.CanonicalHeaderKey "X-RateLimit-Remaining") h in
  http.Get h' "X-RateLimit-Remaining" = "" /\
  http.Get h' "X-RateLimit-Global" = http.Get h "X-RateLimit-Global" /\
  http.Get h' "X-RateLimit-Reset" = http.Get h "X-RateLimit-Reset" /\
  http.Get h' "Retry-After" = http.Get h "Retry-After".
Proof.
  cbv zeta. rewrite !Get_delete. repeat split; case_decide; done.
Qed.

Lemma Get_delete_Reset (h : http.Header) :
  let h' := delete (http.CanonicalHeaderKey "X-RateLimit-Reset") h in
  http.Get h' "X-RateLimit-Reset" = "" /\
  http.Get h' "X-RateLimit-Global" = http.Get h "X-RateLimit-Global" /\
  http.Get h' "X-RateLimit-Remaining" = http.Get h "X-RateLimit-Remaining" /\
  http.Get h' "Retry-After" = http.Get h "Retry-After".
Proof.
  cbv zeta. rewrite !Get_delete. repeat split; case_decide; done.
Qed.

Lemma bucket_at_overwrite s s' path p v' :
  buckets s !! path = Some p ->
  heap s' = <[p := v']> (heap s) -> buckets s' = buckets s ->
  bucket_at s' path = Some v'.
Proof.
  intros Hb Hh Hbk. unfold bucket_at. rewrite Hbk, Hb, Hh.
  apply lookup_insert_eq.
Qed.

(** C1, as the code has it.  On an existing bucket: a Retry-After that is
    not an integer, or an X-RateLimit-Reset that is not a float when
    Retry-After is absent, makes [Release] return with the whole state as it
    was.  An X-RateLimit-Remaining that is not an unsigned integer makes it
    return with the bucket's [remaining] as it was, and the call does
    exactly what it does on the same headers without X-RateLimit-Remaining:
    the update made from Retry-After or X-RateLimit-Reset is kept. *)
Theorem Release_parse_failure s path headers p v :
  buckets s !! path = Some p -> heap s !! p = Some v ->
  (http.Get headers "Retry-After" <> "" ->
   (strconv.Atoi (http.Get headers "Retry-After")).2 <> None ->
   Release path headers s = Next tt s) /\
  (http.Get headers "Retry-After" = "" ->
   http.Get headers "X-RateLimit-Reset" <> "" ->
   (ParseFloat (http.Get headers "X-RateLimit-Reset")).2 <> None ->
   Release path headers s = Next tt s) /\
  (http.Get headers "X-RateLimit-Remaining" <> "" ->
   (strconv.ParseUint (http.Get headers "X-RateLimit-Remaining")).2 <> None ->
   Release path headers s =
     Release path
       (delete (http.CanonicalHeaderKey "X-RateLimit-Remaining") headers) s /\
   exists s' v',
     Release path headers s = Next tt s' /\
     bucket_at s' path = Some v' /\ remaining v' = remaining v).
Proof.
  intros Hb Hh. split; [|split].
  - intros Hra Herr. unfold Release.
    destruct (strconv.Atoi _) as [i err] eqn:Ha. simpl in Herr.
    go_run; go_done.
  - intros Hra Hrs Herr. unfold Release.
    destruct (ParseFloat _) as [f err] eqn:Hf. simpl in Herr.
    go_run; go_done.
  - intros Hrem Herr. split.
    + unfold Release.
      destruct (Get_delete_Remaining headers) as (-> & -> & -> & ->).
      destruct (strconv.ParseUint _) as [u err] eqn:Hu. simpl in Herr.
      go_run; go_done.
    + destruct (Release_existing s path headers p v Hb Hh)
        as (s' & v' & HR & Hheap & Hbk & _ & _ & Hr).
      exists s', v'. split; [exact HR|]. split.
      * eapply bucket_at_overwrite; eauto.
      * destruct Hr as [Hr | Hr]; [exact Hr|].
        rewrite Hr in Herr. simpl in Herr. congruence.
Qed.

Lemma seconds_fit_Duration n :
  -9223372036 <= n <= 9223372036 <-> is_int64 (n * time.Second).
Proof.
  unfold is_int64, minInt64, maxInt64, time.Second, time.Millisecond,
    time.Nanosecond. lia.
Qed.

(** C3, as the code has it.  On an existing bucket, when Retry-After holds
    an integer [n] whose number of seconds fits a [Duration]
    ([n * 10^9] nanoseconds in 64 bits, that is [n] between -9223372036 and
    9223372036), [Release] takes [at = now + n seconds]; with a non-empty
    X-RateLimit-Global it stores [at] in the global cool-down and leaves the
    bucket's [reset] alone, otherwise it stores [at] in the bucket's [reset]
    and leaves the global cool-down alone.  X-RateLimit-Reset is not looked
    at: the call does what it does on the same headers without it. *)
Theorem Release_retry_after s path headers p v n :
  buckets s !! path = Some p -> heap s !! p = Some v ->
  http.Get headers "Retry-After" <> "" ->
  strconv.Atoi (http.Get headers "Retry-After") = (n, None) ->
  -9223372036 <= n <= 9223372036 ->
  exists s' v',
    Release path headers s = Next tt s' /\
    bucket_at s' path = Some v' /\
    (if bool_decide (http.Get headers "X-RateLimit-Global" <> "")
     then global s' = time.Add (clock s) (n * time.Second) /\
          reset v' = reset v
     else reset v' = time.Add (clock s) (n * time.Second) /\
          global s' = global s) /\
    Release path headers s =
      Release path
        (delete (http.CanonicalHeaderKey "X-RateLimit-Reset") headers) s.
Proof.
  intros Hb Hh Hra Ha Hn. apply seconds_fit_Duration in Hn.
  assert (Hdel : Release path headers s =
    Release path (delete (http.CanonicalHeaderKey "X-RateLimit-Reset") headers) s).
  { unfold Release.
    destruct (Get_delete_Reset headers) as (-> & -> & -> & ->).
    go_run; go_done. }
  destruct (Release_existing s path headers p v Hb Hh)
    as (s' & v' & HR & Hheap & Hbk & _ & _ & _).
  exists s', v'. split; [exact HR|].
  split; [eapply bucket_at_overwrite; eauto|].
  split; [|exact Hdel].
  assert (Hv' : heap s' !! p = Some v') by (rewrite Hheap; apply lookup_insert_eq).
  clear Hheap Hbk Hdel. revert HR Hv'. unfold Release.
  rewrite <- (wrap_int64_id _ Hn).
  go_run; go_clean; try go_done.
  all: intros [= <-]; go_proj; rewrite ?Hh, ?lookup_insert_eq;
    intros [= <-]; go_proj; auto.
Qed.


(** C7.  [Release] on a path without bucket returns with the state as it
    was, whatever the headers; and on every well-formed state [Release]
    returns with the same [buckets] map and the same allocated buckets:
    it never adds one. *)
Theorem Release_never_creates s path headers :
  wf s ->
  exists s',
    Release path headers s = Next tt s' /\
    buckets s' = buckets s /\
    dom (heap s') = dom (heap s) /\
    (buckets s !! path = None -> s' = s).
Proof.
  intros Hwf. destruct (buckets s !! path) as [p|] eqn:Hb.
  - destruct (wf_alloc s Hwf _ _ Hb) as [v Hh].
    destruct (Release_existing s path headers p v Hb Hh)
      as (s' & v' & HR & Hheap & Hbk & _ & _ & _).
    exists s'. repeat split; [exact HR | exact Hbk | | discriminate].
    rewrite Hheap. apply dom_insert_lookup_L. eauto.
  - exists s. rewrite (Release_absent s path headers Hb). auto.
Qed.

(** ** Behaviour of [Acquire] *)

(** C2, as the code has it.  [Acquire] reads the clock once, on entry.  The
    bucket-exhaustion check compares the bucket's [reset] with that reading
    and sleeps for [reset] minus that reading plus [ExtraDelay], also when
    the global wait was taken before it.  A path without bucket counts as
    the bucket [getBucket] makes for it. *)
Theorem Acquire_single_time_reading s path :
  wf s ->
  exists s',
    Acquire path s = Next tt s' /\
    sleeps s' =
      (sleeps s ++ global_wait s ++
       bucket_wait (clock s)
         (default (mkBucket time.zero 1) (bucket_at s path)))%list.
Proof.
  intros Hwf. unfold bucket_at. destruct (buckets s !! path) as [p|] eqn:Hb.
  - destruct (wf_alloc s Hwf _ _ Hb) as [v Hh].
    rewrite (Acquire_existing s path p v Hb Hh), Hh. eauto.
  - rewrite (Acquire_fresh s path Hb). eexists. split; [reflexivity|].
    simpl. unfold bucket_wait. simpl. rewrite app_nil_r. reflexivity.
Qed.

(** C8.  For a path without bucket, [getBucket] makes a bucket with
    [remaining = 1] and the zero [reset] at an unused address, and
    [Acquire] returns having slept for the global cool-down only; it leaves
    that bucket with [remaining = 0]. *)
Theorem Acquire_first_call s path :
  buckets s !! path = None ->
  (exists p s1,
     getBucket path true s = Next (Some p) s1 /\
     heap s !! p = None /\
     bucket_at s1 path = Some (mkBucket time.zero 1)) /\
  (exists s',
     Acquire path s = Next tt s' /\
     sleeps s' = (sleeps s ++ global_wait s)%list /\
     bucket_at s' path = Some (mkBucket time.zero 0)).
Proof.
  intros Hb. split.
  - eexists _, _. split; [apply (getBucket_create s path Hb)|].
    split; [apply fresh_unallocated|].
    unfold bucket_at. simpl. rewrite !lookup_insert_eq. reflexivity.
  - rewrite (Acquire_fresh s path Hb). eexists. split; [reflexivity|].
    split; [reflexivity|].
    unfold bucket_at. simpl. rewrite !lookup_insert_eq. reflexivity.
Qed.


(** C10.  On a reachable state, [Acquire path] returns and, of the limiter,
    changes only the bucket of [path]: one with the zero [reset] is made
    when there is none (with [remaining = 1], which the same call counts
    down to 0), and [remaining] loses one when it is positive.  The global
    cool-down, the [reset] of every bucket and the buckets of the other
    paths are as they were. *)
Theorem Acquire_frame s path :
  reachable s ->
  exists s',
    Acquire path s = Next tt s' /\
    global s' = global s /\
    (forall path', path' <> path -> bucket_at s' path' = bucket_at s path') /\
    bucket_at s' path =
      match bucket_at s path with
      | Some v =>
          Some (mkBucket (reset v)
                         (if 0 <? remaining v then remaining v - 1 else remaining v))
      | None => Some (mkBucket time.zero 0)
      end.
Proof.
  intros Hreach. pose proof (reachable_wf s Hreach) as Hwf.
  destruct (buckets s !! path) as [p|] eqn:Hb.
  - destruct (wf_alloc s Hwf _ _ Hb) as [v Hh].
    assert (Hat : bucket_at s path = Some v) by (unfold bucket_at; rewrite Hb; done).
    rewrite (Acquire_existing s path p v Hb Hh), Hat.
    eexists. split; [reflexivity|]. split; [reflexivity|].
    unfold bucket_at. simpl. split.
    + intros path' Hne. destruct (buckets s !! path') as [q|] eqn:Hq; [|done].
      destruct (0 <? remaining v); [|done].
      apply lookup_insert_ne. intros <-. apply Hne.
      exact (wf_inj s Hwf _ _ _ Hq Hb).
    + rewrite Hb. destruct (0 <? remaining v) eqn:Hr.
      * rewrite lookup_insert_eq. do 2 f_equal. apply wrap_uint64_id.
        pose proof (wf_uint64 s Hwf _ _ Hh) as Hu.
        unfold is_uint64 in *. lia.
      * rewrite Hh, bucket_eta. reflexivity.
  - assert (Hat : bucket_at s path = None) by (unfold bucket_at; rewrite Hb; done).
    rewrite (Acquire_fresh s path Hb), Hat.
    eexists. split; [reflexivity|]. split; [reflexivity|].
    unfold bucket_at. simpl. split.
    + intros path' Hne. rewrite lookup_insert_ne by done.
      destruct (buckets s !! path') as [q|] eqn:Hq; [|done].
      apply lookup_insert_ne. intros <-.
      destruct (wf_alloc s Hwf _ _ Hq) as [w Hw].
      rewrite fresh_unallocated in Hw. discriminate.
    + rewrite !lookup_insert_eq. reflexivity.
Qed.

(** [Release] when the only header of the four is a well-formed
    X-RateLimit-Remaining. *)
Lemma Release_only_remaining s path headers p v u :
  buckets s !! path = Some p -> heap s !! p = Some v ->
  http.Get headers "Retry-After" = "" ->
  http.Get headers "X-RateLimit-Reset" = "" ->
  http.Get headers "X-RateLimit-Remaining" <> "" ->
  strconv.ParseUint (http.Get headers "X-RateLimit-Remaining") = (u, None) ->
  Release path headers s =
    Next tt (mkState (<[p := mkBucket (reset v) u]> (heap s)) (buckets s)
                     (global s) (clock s) (sleeps s)).
Proof.
  intros Hb Hh Hra Hrs Hrem Hu. unfold Release. rewrite Hra, Hrs.
  go_run; go_clean; go_done.
Qed.

Lemma Get_Remaining_5 :
  let headers : http.Header := {[ "X-Ratelimit-Remaining" := ["5"] ]} in
  http.Get headers "Retry-After" = "" /\
  http.Get headers "X-RateLimit-Reset" = "" /\
  http.Get headers "X-RateLimit-Global" = "" /\
  http.Get headers "X-RateLimit-Remaining" = "5".
Proof. vm_compute. auto. Qed.

(** C6.  From a bucket with [remaining = 1]: [Acquire] leaves it with
    [remaining = 0]; then [Release] with the single header
    X-RateLimit-Remaining: 5 leaves it with [remaining = 5]; then
    [Acquire] sleeps for the global cool-down only.  Any time [d1], [d2] may
    pass between the calls. *)
Theorem Acquire_Release_Acquire s path p t d1 d2 :
  buckets s !! path = Some p -> heap s !! p = Some (mkBucket t 1) ->
  exists s1 s2 s3,
    Acquire path s = Next tt s1 /\
    bucket_at s1 path = Some (mkBucket t 0) /\
    Release path {[ "X-Ratelimit-Remaining" := ["5"] ]} (elapse d1 s1)
      = Next tt s2 /\
    bucket_at s2 path = Some (mkBucket t 5) /\
    Acquire path (elapse d2 s2) = Next tt s3 /\
    sleeps s3 = (sleeps s2 ++ global_wait (elapse d2 s2))%list.
Proof.
  intros Hb Hh.
  set (s1 := mkState (<[p := mkBucket t 0]> (heap s)) (buckets s) (global s)
                     (clock s + elapsed (global_wait s))
                     (sleeps s ++ global_wait s)).
  set (s2 := mkState (<[p := mkBucket t 5]> (heap s)) (buckets s) (global s)
                     (clock s1 + d1) (sleeps s1)).
  assert (H1 : Acquire path s = Next tt s1).
  { rewrite (Acquire_existing s path p _ Hb Hh).
    unfold bucket_wait. go_proj. rewrite !app_nil_r. reflexivity. }
  assert (H2 : Release path {[ "X-Ratelimit-Remaining" := ["5"] ]} (elapse d1 s1)
               = Next tt s2).
  { destruct Get_Remaining_5 as (Hra & Hrs & _ & Hrem).
    rewrite (Release_only_remaining _ path _ p (mkBucket t 0) 5);
      [| exact Hb | apply lookup_insert_eq | exact Hra | exact Hrs
       | rewrite Hrem; discriminate | rewrite Hrem; reflexivity ].
    unfold s2, s1, elapse. go_proj. rewrite insert_insert_eq. reflexivity. }
  assert (Hh2 : heap (elapse d2 s2) !! p = Some (mkBucket t 5))
    by apply lookup_insert_eq.
  exists s1, s2. eexists.
  split; [exact H1|].
  split; [unfold bucket_at; simpl; rewrite Hb; apply lookup_insert_eq|].
  split; [exact H2|].
  split; [unfold bucket_at; simpl; rewrite Hb; apply lookup_insert_eq|].
  split; [apply (Acquire_existing (elapse d2 s2) path p _ Hb Hh2)|].
  unfold bucket_wait. go_proj. rewrite app_nil_r. reflexivity.
Qed.

(** ** The invariant of [remaining] *)



(** * Further properties of the package *)

(** ** Arithmetic of the waits *)

Lemma Sub_exact t u : is_int64 (t - u) -> time.Sub t u = t - u.
Proof.
  unfold is_int64, time.Sub, time.minDuration, time.maxDuration. intros H.
  destruct (Z.ltb_spec (t - u) minInt64); [lia|].
  destruct (Z.ltb_spec maxInt64 (t - u)); [lia|]. reflexivity.
Qed.

Lemma Sub_saturates t u : maxInt64 <= t - u -> time.Sub t u = maxInt64.
Proof.
  unfold time.Sub, time.minDuration, time.maxDuration. intros H.
  assert (minInt64 < maxInt64) by (unfold minInt64, maxInt64; lia).
  destruct (Z.ltb_spec (t - u) minInt64); [lia|].
  destruct (Z.ltb_spec maxInt64 (t - u)); [reflexivity | lia].
Qed.

Lemma wrap_int64_over z :
  maxInt64 < z <= maxInt64 + 2 ^ 63 -> wrap_int64 z = z - 2 ^ 64.
Proof.
  unfold wrap_int64, maxInt64. intros H.
  replace (z + 2 ^ 63) with ((z - 2 ^ 63) + 1 * 2 ^ 64) by lia.
  rewrite Z.mod_add by lia. rewrite Z.mod_small; lia.
Qed.

Lemma ExtraDelay_value : ExtraDelay = 250000000.
Proof. reflexivity. Qed.

(** The wait for an instant [t] in the future, when it fits a [Duration]. *)
Lemma wait_exact t now :
  now < t -> t - now <= maxInt64 - ExtraDelay ->
  wrap_int64 (time.Sub t now + ExtraDelay) = t - now + ExtraDelay.
Proof.
  rewrite ExtraDelay_value. intros H1 H2.
  rewrite Sub_exact by (unfold is_int64, minInt64, maxInt64 in *; lia).
  apply wrap_int64_id. unfold is_int64, minInt64, maxInt64 in *. lia.
Qed.

(** The wait for an instant too far in the future is negative. *)
Lemma wait_wraps t now :
  maxInt64 - ExtraDelay < t - now ->
  wrap_int64 (time.Sub t now + ExtraDelay) < 0.
Proof.
  rewrite ExtraDelay_value. intros H.
  destruct (Z.le_gt_cases maxInt64 (t - now)) as [Hsat | Hin].
  - rewrite (Sub_saturates _ _ Hsat).
    rewrite wrap_int64_over; unfold maxInt64; lia.
  - rewrite Sub_exact by (unfold is_int64, minInt64, maxInt64 in *; lia).
    rewrite wrap_int64_over; unfold maxInt64 in *; lia.
Qed.

Lemma elapsed_nonneg l : 0 <= elapsed l.
Proof. induction l as [|d l IH]; simpl; lia. Qed.

Lemma elapsed_app l1 l2 : elapsed (l1 ++ l2) = elapsed l1 + elapsed l2.
Proof. induction l1 as [|d l1 IH]; simpl; lia. Qed.

Lemma global_wait_none s : global s <= clock s -> global_wait s = [].
Proof.
  unfold global_wait, time.After. intros H.
  destruct (Z.ltb_spec (clock s) (global s)); [lia | reflexivity].
Qed.

Lemma global_wait_some s :
  clock s < global s ->
  global_wait s = [wrap_int64 (time.Sub (global s) (clock s) + ExtraDelay)].
Proof.
  unfold global_wait, time.After. intros H.
  destruct (Z.ltb_spec (clock s) (global s)); [reflexivity | lia].
Qed.

(** [Acquire] returns, and not before the global wait is over. *)
Lemma Acquire_clock s path :
  wf s ->
  exists s', Acquire path s = Next tt s' /\
             clock s + elapsed (global_wait s) <= clock s'.
Proof.
  intros Hwf. destruct (buckets s !! path) as [p|] eqn:Hb.
  - destruct (wf_alloc s Hwf _ _ Hb) as [v Hh].
    rewrite (Acquire_existing s path p v Hb Hh). eexists. split; [reflexivity|].
    simpl. rewrite elapsed_app.
    pose proof (elapsed_nonneg (bucket_wait (clock s) v)). lia.
  - rewrite (Acquire_fresh s path Hb). eexists. split; [reflexivity|].
    simpl. lia.
Qed.

(** ** [NewLimiter] and [getBucket] *)

(** X1.  On a limiter just made, at any instant of our era, [Acquire] of
    any path returns without sleeping and leaves exactly one bucket, for
    that path, with [remaining = 0] and the zero [reset]. *)
Theorem NewLimiter_then_Acquire now path :
  time.zero <= now ->
  exists s',
    Acquire path (NewLimiter now) = Next tt s' /\
    sleeps s' = [] /\ clock s' = now /\ global s' = time.zero /\
    dom (buckets s') = {[ path ]} /\
    bucket_at s' path = Some (mkBucket time.zero 0).
Proof.
  intros Hnow.
  assert (Hb : buckets (NewLimiter now) !! path = None) by apply lookup_empty.
  rewrite (Acquire_fresh _ path Hb).
  rewrite global_wait_none by exact Hnow.
  eexists. split; [reflexivity|]. simpl.
  split; [reflexivity|]. split; [lia|]. split; [reflexivity|].
  split.
  - rewrite dom_insert_L, dom_empty_L. apply (right_id_L ∅ (∪)).
  - unfold bucket_at. simpl. rewrite !lookup_insert_eq. reflexivity.
Qed.

(** X2.  [getBucket] with [store = true] never yields nil, and once it has
    returned a bucket for a path every later [getBucket] of that path, with
    either value of [store], returns the same bucket and changes nothing. *)
Theorem getBucket_idempotent s path store b s1 :
  getBucket path true s = Next b s1 ->
  exists p,
    b = Some p /\ buckets s1 !! path = Some p /\
    getBucket path store s1 = Next (Some p) s1.
Proof.
  destruct (buckets s !! path) as [p|] eqn:Hb.
  - rewrite (getBucket_found s path true p Hb). intros [= <- <-].
    exists p. split; [reflexivity|]. split; [exact Hb|].
    apply getBucket_found. exact Hb.
  - rewrite (getBucket_create s path Hb). intros [= <- <-].
    eexists. split; [reflexivity|].
    assert (Hb1 : forall h g c l,
      buckets (mkState h (<[path := fresh (dom (heap s))]> (buckets s)) g c l)
        !! path = Some (fresh (dom (heap s))))
      by (intros; apply lookup_insert_eq).
    split; [apply Hb1|]. apply getBucket_found, Hb1.
Qed.

(** X3.  [Acquire path] keeps every entry of the registry and adds at most
    the one for [path]: afterwards the registry holds the former paths and
    [path], every former path still maps to the bucket it had, and [path]
    has a bucket. *)
Theorem Acquire_registry_grows s path :
  wf s ->
  exists s',
    Acquire path s = Next tt s' /\
    dom (buckets s') = {[ path ]} ∪ dom (buckets s) /\
    (forall k p, buckets s !! k = Some p -> buckets s' !! k = Some p) /\
    is_Some (bucket_at s' path).
Proof.
  intros Hwf. destruct (buckets s !! path) as [p|] eqn:Hb.
  - destruct (wf_alloc s Hwf _ _ Hb) as [v Hh].
    rewrite (Acquire_existing s path p v Hb Hh). eexists.
    split; [reflexivity|]. unfold bucket_at. simpl.
    split; [|split; [auto|]].
    + symmetry. apply subseteq_union_1_L, singleton_subseteq_l.
      apply elem_of_dom. eauto.
    + rewrite Hb. destruct (0 <? remaining v).
      * rewrite lookup_insert_eq. eauto.
      * rewrite Hh. eauto.
  - rewrite (Acquire_fresh s path Hb). eexists.
    split; [reflexivity|]. unfold bucket_at. simpl.
    split; [apply dom_insert_L|]. split.
    + intros k p Hk. rewrite lookup_insert_ne by congruence. exact Hk.
    + rewrite !lookup_insert_eq. eauto.
Qed.

(** X4.  In every state reached from [NewLimiter] through [Acquire] and
    [Release], every path of the registry has a bucket, and two different
    paths never share one. *)
Theorem reachable_buckets_distinct s :
  reachable s ->
  (forall path, is_Some (buckets s !! path) -> is_Some (bucket_at s path)) /\
  (forall path1 path2 p,
     buckets s !! path1 = Some p -> buckets s !! path2 = Some p ->
     path1 = path2).
Proof.
  intros Hr. pose proof (reachable_wf s Hr) as Hwf. split.
  - intros path [p Hp]. unfold bucket_at. rewrite Hp.
    exact (wf_alloc s Hwf _ _ Hp).
  - exact (wf_inj s Hwf).
Qed.

(** X5.  In every state reached from [NewLimiter] through [Acquire] and
    [Release], both operations return for every path and every header
    map: no nil bucket is ever dereferenced. *)
Theorem reachable_no_panic s path headers :
  reachable s ->
  (exists s', Acquire path s = Next tt s') /\
  (exists s', Release path headers s = Next tt s').
Proof.
  intros Hr. pose proof (reachable_wf s Hr) as Hwf. split.
  - apply Acquire_returns, Hwf.
  - apply Release_returns, Hwf.
Qed.

(** ** The waits of [Acquire] *)

(** X6.  When the bucket of [path] is exhausted and its [reset] lies in the
    future, at a distance that fits a [Duration], [Acquire] returns no
    earlier than [reset + ExtraDelay] and leaves the bucket as it was; when
    no global cool-down is active it sleeps exactly
    [(reset - now) + ExtraDelay]. *)
Theorem Acquire_waits_for_reset s path p v :
  buckets s !! path = Some p -> heap s !! p = Some v ->
  remaining v = 0 -> clock s < reset v ->
  reset v - clock s <= maxInt64 - ExtraDelay ->
  exists s',
    Acquire path s = Next tt s' /\
    reset v + ExtraDelay <= clock s' /\
    bucket_at s' path = Some v /\
    (global s <= clock s ->
     clock s' = reset v + ExtraDelay /\
     sleeps s' = (sleeps s ++ [reset v - clock s + ExtraDelay])%list).
Proof.
  intros Hb Hh Hr Hfut Hfit.
  rewrite (Acquire_existing s path p v Hb Hh). eexists. split; [reflexivity|].
  assert (Hbw : bucket_wait (clock s) v = [reset v - clock s + ExtraDelay]).
  { unfold bucket_wait, time.After. rewrite Hr. simpl.
    destruct (Z.ltb_spec (clock s) (reset v)); [|lia].
    rewrite wait_exact by assumption. reflexivity. }
  rewrite Hbw, Hr. unfold bucket_at. simpl. rewrite Hb, Hh.
  rewrite elapsed_app. pose proof (elapsed_nonneg (global_wait s)) as Hg.
  rewrite ExtraDelay_value in *. simpl.
  split; [lia|]. split; [reflexivity|].
  intros Hnog. rewrite (global_wait_none s Hnog). simpl. split; [lia | reflexivity].
Qed.

(** X7.  When the global cool-down lies in the future, at a distance that
    fits a [Duration], [Acquire] of any path, with or without bucket,
    returns no earlier than [global + ExtraDelay]. *)
Theorem Acquire_waits_for_global s path :
  wf s -> clock s < global s ->
  global s - clock s <= maxInt64 - ExtraDelay ->
  exists s',
    Acquire path s = Next tt s' /\ global s + ExtraDelay <= clock s'.
Proof.
  intros Hwf Hfut Hfit.
  destruct (Acquire_clock s path Hwf) as (s' & HA & Hc).
  exists s'. split; [exact HA|].
  rewrite (global_wait_some s Hfut), wait_exact in Hc by assumption.
  simpl in Hc. rewrite ExtraDelay_value in *. lia.
Qed.

(** X8.  When the bucket of [path] is exhausted and its [reset] lies so far
    ahead that [(reset - now) + ExtraDelay] does not fit a [Duration] (more
    than about 292 years), the duration handed to [time.Sleep] is negative:
    with no global cool-down active [Acquire] returns at once, the clock
    where it was. *)
Theorem Acquire_far_reset_does_not_wait s path p v :
  buckets s !! path = Some p -> heap s !! p = Some v ->
  remaining v = 0 -> maxInt64 - ExtraDelay < reset v - clock s ->
  global s <= clock s ->
  exists s' d,
    Acquire path s = Next tt s' /\
    clock s' = clock s /\
    sleeps s' = (sleeps s ++ [d])%list /\ d < 0.
Proof.
  intros Hb Hh Hr Hfar Hnog.
  rewrite (Acquire_existing s path p v Hb Hh).
  rewrite (global_wait_none s Hnog).
  pose proof (wait_wraps (reset v) (clock s) Hfar) as Hneg.
  assert (Hbw : bucket_wait (clock s) v
                = [wrap_int64 (time.Sub (reset v) (clock s) + ExtraDelay)]).
  { unfold bucket_wait, time.After. rewrite Hr. simpl.
    destruct (Z.ltb_spec (clock s) (reset v)); [reflexivity|].
    rewrite ExtraDelay_value in Hfar. unfold maxInt64 in Hfar. lia. }
  rewrite Hbw. eexists _, _. split; [reflexivity|]. simpl.
  split; [lia|]. split; [reflexivity | exact Hneg].
Qed.

(** X9.  When the bucket of [path] is exhausted and its [reset] has passed,
    [Acquire] sleeps for the global cool-down only and leaves the bucket
    exhausted: nothing but [Release] refills it. *)
Theorem Acquire_after_reset_passed s path p v :
  buckets s !! path = Some p -> heap s !! p = Some v ->
  remaining v = 0 -> reset v <= clock s ->
  exists s',
    Acquire path s = Next tt s' /\
    bucket_at s' path = Some v /\
    sleeps s' = (sleeps s ++ global_wait s)%list.
Proof.
  intros Hb Hh Hr Hpast.
  rewrite (Acquire_existing s path p v Hb Hh). eexists. split; [reflexivity|].
  assert (Hbw : bucket_wait (clock s) v = []).
  { unfold bucket_wait, time.After. rewrite Hr. simpl.
    destruct (Z.ltb_spec (clock s) (reset v)); [lia | reflexivity]. }
  rewrite Hbw, Hr, app_nil_r. unfold bucket_at. simpl. rewrite Hb, Hh.
  split; reflexivity.
Qed.

(** X10.  [n] calls of [Acquire] in a row on a bucket that has at least [n]
    left, with no global cool-down active, never sleep: they take [n] from
    [remaining] and leave the clock where it was. *)
Theorem Acquire_times_counts_down n : forall s path p v,
  buckets s !! path = Some p -> heap s !! p = Some v ->
  is_uint64 (remaining v) -> Z.of_nat n <= remaining v ->
  global s <= clock s ->
  exists s',
    Acquire_times n path s = Next tt s' /\
    bucket_at s' path = Some (mkBucket (reset v) (remaining v - Z.of_nat n)) /\
    sleeps s' = sleeps s /\ clock s' = clock s /\ global s' = global s.
Proof.
  induction n as [|n IH]; intros s path p v Hb Hh Hu Hn Hnog.
  - exists s. split; [reflexivity|]. unfold bucket_at. rewrite Hb, Hh.
    rewrite Z.sub_0_r, bucket_eta. auto.
  - cbn [Acquire_times]. unfold bind at 1.
    rewrite (Acquire_existing s path p v Hb Hh).
    rewrite (global_wait_none s Hnog).
    assert (Hpos : 0 < remaining v) by lia.
    assert (Hbw : bucket_wait (clock s) v = []).
    { unfold bucket_wait. destruct (Z.eqb_spec (remaining v) 0); [lia|].
      reflexivity. }
    rewrite Hbw. destruct (Z.ltb_spec 0 (remaining v)); [|lia].
    rewrite wrap_uint64_id by (unfold is_uint64 in *; lia).
    simpl. rewrite app_nil_r, Z.add_0_r.
    set (s1 := mkState _ _ _ _ _).
    destruct (IH s1 path p (mkBucket (reset v) (remaining v - 1)))
      as (s' & HA & Hat & Hsl & Hcl & Hgl).
    + exact Hb.
    + apply lookup_insert_eq.
    + simpl. unfold is_uint64 in *. lia.
    + simpl. lia.
    + exact Hnog.
    + exists s'. split; [exact HA|]. simpl in Hat.
      replace (remaining v - Z.of_nat (S n))
        with (remaining v - 1 - Z.of_nat n) by lia.
      auto.
Qed.

(** ** What [Release] changes *)

(** [Release] changes the global cool-down only on a well-formed
    Retry-After with a non-empty X-RateLimit-Global. *)
Lemma Release_global_changes s path headers p v s' :
  buckets s !! path = Some p -> heap s !! p = Some v ->
  Release path headers s = Next tt s' -> global s' <> global s ->
  http.Get headers "Retry-After" <> "" /\
  (strconv.Atoi (http.Get headers "Retry-After")).2 = None /\
  http.Get headers "X-RateLimit-Global" <> "".
Proof.
  intros Hb Hh. unfold Release. go_run; go_clean; try go_done.
  all: intros [= <-]; go_proj; intros Hg; try (exfalso; apply Hg; reflexivity).
  all: repeat split; assumption.
Qed.

(** X11.  On a well-formed state [Release path] returns without sleeping
    and without touching the clock, and leaves the bucket of every other
    path as it was; it changes the global cool-down only when Retry-After
    is an integer and X-RateLimit-Global is not empty. *)
Theorem Release_frame s path headers :
  wf s ->
  exists s',
    Release path headers s = Next tt s' /\
    clock s' = clock s /\ sleeps s' = sleeps s /\
    (forall path', path' <> path -> bucket_at s' path' = bucket_at s path') /\
    (global s' <> global s ->
     http.Get headers "Retry-After" <> "" /\
     (strconv.Atoi (http.Get headers "Retry-After")).2 = None /\
     http.Get headers "X-RateLimit-Global" <> "").
Proof.
  intros Hwf. destruct (buckets s !! path) as [p|] eqn:Hb.
  - destruct (wf_alloc s Hwf _ _ Hb) as [v Hh].
    destruct (Release_existing s path headers p v Hb Hh)
      as (s' & v' & HR & Hheap & Hbk & Hcl & Hsl & _).
    exists s'. split; [exact HR|]. split; [exact Hcl|]. split; [exact Hsl|].
    split.
    + intros path' Hne. unfold bucket_at. rewrite Hbk, Hheap.
      destruct (buckets s !! path') as [q|] eqn:Hq; [|reflexivity].
      apply lookup_insert_ne. intros <-. apply Hne.
      exact (wf_inj s Hwf _ _ _ Hq Hb).
    + apply (Release_global_changes s path headers p v s' Hb Hh HR).
  - rewrite (Release_absent s path headers Hb). exists s.
    split; [reflexivity|]. split; [reflexivity|]. split; [reflexivity|].
    split; [reflexivity|]. intros Hg. exfalso. apply Hg. reflexivity.
Qed.

(** X12.  A response with none of Retry-After, X-RateLimit-Reset and
    X-RateLimit-Remaining changes nothing, whatever the state and whatever
    X-RateLimit-Global holds. *)
Theorem Release_without_headers s path headers :
  http.Get headers "Retry-After" = "" ->
  http.Get headers "X-RateLimit-Reset" = "" ->
  http.Get headers "X-RateLimit-Remaining" = "" ->
  Release path headers s = Next tt s.
Proof.
  intros Hra Hrs Hrem. unfold Release. rewrite Hra, Hrs, Hrem.
  go_run; go_done.
Qed.

(** X13.  On an existing bucket, a response whose only header of the three
    is a well-formed X-RateLimit-Remaining [u] sets [remaining] to [u] and
    changes nothing else: [reset], the global cool-down, the registry, the
    clock. *)
Theorem Release_sets_remaining_only s path headers p v u :
  buckets s !! path = Some p -> heap s !! p = Some v ->
  http.Get headers "Retry-After" = "" ->
  http.Get headers "X-RateLimit-Reset" = "" ->
  http.Get headers "X-RateLimit-Remaining" <> "" ->
  strconv.ParseUint (http.Get headers "X-RateLimit-Remaining") = (u, None) ->
  exists s',
    Release path headers s = Next tt s' /\
    bucket_at s' path = Some (mkBucket (reset v) u) /\
    is_uint64 u /\
    global s' = global s /\ buckets s' = buckets s /\
    clock s' = clock s /\ sleeps s' = sleeps s.
Proof.
  intros Hb Hh Hra Hrs Hrem Hu.
  rewrite (Release_only_remaining s path headers p v u Hb Hh Hra Hrs Hrem Hu).
  eexists. split; [reflexivity|]. unfold bucket_at. simpl.
  rewrite Hb, lookup_insert_eq.
  repeat split; try reflexivity; apply (ParseUint_range _ _ Hu).
Qed.

(** [Release] on a well-formed Retry-After with X-RateLimit-Global. *)
Lemma Release_retry_after_global_state s path headers p v n :
  buckets s !! path = Some p -> heap s !! p = Some v ->
  http.Get headers "Retry-After" <> "" ->
  strconv.Atoi (http.Get headers "Retry-After") = (n, None) ->
  http.Get headers "X-RateLimit-Global" <> "" ->
  exists s',
    Release path headers s = Next tt s' /\
    global s' = time.Add (clock s) (wrap_int64 (n * time.Second)) /\
    clock s' = clock s.
Proof.
  intros Hb Hh Hra Ha Hg. unfold Release.
  go_run; go_clean; try go_done.
  all: eexists; split; [reflexivity|]; go_proj; split; reflexivity.
Qed.

(** X14.  After a response with Retry-After: [n] (from 0 to 9223372036
    seconds) and a non-empty X-RateLimit-Global, [Acquire] of every path,
    the one of the response or another, with or without bucket, returns no
    earlier than [n] seconds after the response; if it is called before
    that instant it returns no earlier than [ExtraDelay] after it. *)
Theorem Release_global_blocks_every_path s path path' headers p v n d :
  wf s ->
  buckets s !! path = Some p -> heap s !! p = Some v ->
  http.Get headers "Retry-After" <> "" ->
  strconv.Atoi (http.Get headers "Retry-After") = (n, None) ->
  http.Get headers "X-RateLimit-Global" <> "" ->
  0 <= n <= 9223372036 -> 0 <= d ->
  exists s1 s2,
    Release path headers s = Next tt s1 /\
    Acquire path' (elapse d s1) = Next tt s2 /\
    clock s + n * time.Second <= clock s2 /\
    (d < n * time.Second ->
     clock s + n * time.Second + ExtraDelay <= clock s2).
Proof.
  intros Hwf Hb Hh Hra Ha Hg Hn Hd.
  destruct (Release_retry_after_global_state s path headers p v n Hb Hh Hra Ha Hg)
    as (s1 & HR & Hgl & Hcl).
  assert (Hfit : is_int64 (n * time.Second))
    by (apply seconds_fit_Duration; lia).
  rewrite (wrap_int64_id _ Hfit) in Hgl. unfold time.Add in Hgl.
  assert (Hwf1 : wf (elapse d s1)) by (apply wf_elapse; eapply wf_Release; eauto).
  destruct (Acquire_clock (elapse d s1) path' Hwf1) as (s2 & HA & Hc).
  exists s1, s2. split; [exact HR|]. split; [exact HA|].
  assert (Hsec : time.Second = 1000000000) by reflexivity.
  destruct (Z.lt_ge_cases d (n * time.Second)) as [Hearly | Hlate].
  - rewrite global_wait_some in Hc by (simpl; lia).
    rewrite wait_exact in Hc
      by (simpl; rewrite ?ExtraDelay_value; unfold maxInt64; lia).
    simpl in Hc. rewrite ExtraDelay_value in *. lia.
  - pose proof (elapsed_nonneg (global_wait (elapse d s1))).
    simpl in Hc. split; lia.
Qed.



(** X16.  [Release] is idempotent: absorbing the same response a second
    time, at the same instant, changes nothing more. *)
Theorem Release_idempotent s path headers s' :
  Release path headers s = Next tt s' ->
  Release path headers s' = Next tt s'.
Proof.
  destruct (buckets s !! path) as [p|] eqn:Hb.
  - destruct (heap s !! p) as [v|] eqn:Hh.
    + unfold Release at 1. go_run; go_clean; try go_done.
      all: intros [= <-]; unfold Release; go_run; go_clean; try go_done.
      all: rewrite ?insert_insert_eq; reflexivity.
    + unfold Release at 1. go_run; go_clean; try go_done.
      all: intros [= <-]; unfold Release; go_run; go_clean; try go_done.
  - rewrite (Release_absent s path headers Hb). intros [= <-].
    apply Release_absent, Hb.
Qed.

(** X17.  While a bucket has calls left, [Acquire] sleeps for the global
    cool-down only, even when [reset] lies in the future, and takes
    exactly one from [remaining]. *)
Theorem Acquire_with_quota_does_not_wait s path p v :
  buckets s !! path = Some p -> heap s !! p = Some v ->
  0 < remaining v <= maxUint64 ->
  exists s',
    Acquire path s = Next tt s' /\
    sleeps s' = (sleeps s ++ global_wait s)%list /\
    bucket_at s' path = Some (mkBucket (reset v) (remaining v - 1)).
Proof.
  intros Hb Hh Hr.
  rewrite (Acquire_existing s path p v Hb Hh). eexists. split; [reflexivity|].
  assert (Hbw : bucket_wait (clock s) v = []).
  { unfold bucket_wait. destruct (Z.eqb_spec (remaining v) 0); [lia|].
    reflexivity. }
  rewrite Hbw, app_nil_r. destruct (Z.ltb_spec 0 (remaining v)); [|lia].
  rewrite wrap_uint64_id by (unfold is_uint64; lia).
  unfold bucket_at. simpl. rewrite Hb, lookup_insert_eq. split; reflexivity.
Qed.


(** What [Acquire path] does depends on the global cool-down, the clock,
    the log and the bucket of [path] only. *)
Lemma Acquire_depends_on s1 s2 path :
  wf s1 -> wf s2 ->
  global s1 = global s2 -> clock s1 = clock s2 -> sleeps s1 = sleeps s2 ->
  bucket_at s1 path = bucket_at s2 path ->
  exists s1' s2',
    Acquire path s1 = Next tt s1' /\ Acquire path s2 = Next tt s2' /\
    sleeps s1' = sleeps s2' /\ clock s1' = clock s2' /\
    global s1' = global s2' /\
    bucket_at s1' path = bucket_at s2' path.
Proof.
  intros Hwf1 Hwf2 Hg Hc Hs Hat.
  assert (Hgw : global_wait s1 = global_wait s2)
    by (unfold global_wait; rewrite Hg, Hc; reflexivity).
  unfold bucket_at in Hat.
  destruct (buckets s1 !! path) as [p1|] eqn:Hb1;
    destruct (buckets s2 !! path) as [p2|] eqn:Hb2.
  - destruct (wf_alloc s1 Hwf1 _ _ Hb1) as [v1 Hh1].
    destruct (wf_alloc s2 Hwf2 _ _ Hb2) as [v2 Hh2].
    assert (v1 = v2) as -> by congruence.
    rewrite (Acquire_existing s1 path p1 v2 Hb1 Hh1).
    rewrite (Acquire_existing s2 path p2 v2 Hb2 Hh2).
    eexists _, _. split; [reflexivity|]. split; [reflexivity|].
    unfold bucket_at. simpl. rewrite Hb1, Hb2, Hgw, Hc, Hs, Hg.
    repeat split.
    destruct (0 <? remaining v2); rewrite ?lookup_insert_eq; congruence.
  - destruct (wf_alloc s1 Hwf1 _ _ Hb1) as [v1 Hh1]. congruence.
  - destruct (wf_alloc s2 Hwf2 _ _ Hb2) as [v2 Hh2]. congruence.
  - rewrite (Acquire_fresh s1 path Hb1), (Acquire_fresh s2 path Hb2).
    eexists _, _. split; [reflexivity|]. split; [reflexivity|].
    unfold bucket_at. simpl. rewrite Hgw, Hc, Hs, Hg, !lookup_insert_eq.
    repeat split.
Qed.

(** X19.  A response for one path without X-RateLimit-Global does not
    change what [Acquire] of another path does: it sleeps as long, returns
    at the same instant and leaves its bucket in the same state as if the
    response had not been absorbed. *)
Theorem Release_does_not_affect_other_path s path path' headers :
  wf s -> path' <> path ->
  http.Get headers "X-RateLimit-Global" = "" ->
  exists s1 s2 s2',
    Release path headers s = Next tt s1 /\
    Acquire path' s1 = Next tt s2 /\
    Acquire path' s = Next tt s2' /\
    sleeps s2 = sleeps s2' /\ clock s2 = clock s2' /\
    global s2 = global s2' /\
    bucket_at s2 path' = bucket_at s2' path'.
Proof.
  intros Hwf Hne Hglobal.
  destruct (Release_returns s path headers Hwf) as (s1 & HR).
  assert (Hwf1 : wf s1) by (eapply wf_Release; eauto).
  assert (Hsame : global s1 = global s /\ clock s1 = clock s /\
                  sleeps s1 = sleeps s /\
                  bucket_at s1 path' = bucket_at s path').
  { destruct (buckets s !! path) as [p|] eqn:Hb.
    - destruct (wf_alloc s Hwf _ _ Hb) as [v Hh].
      destruct (Release_existing s path headers p v Hb Hh)
        as (s1' & v' & HR' & Hheap & Hbk & Hcl & Hsl & _).
      rewrite HR in HR'. injection HR' as <-.
      split; [|split; [exact Hcl|split; [exact Hsl|]]].
      + destruct (decide (global s1 = global s)) as [Heq|Hdiff]; [exact Heq|].
        destruct (Release_global_changes s path headers p v s1 Hb Hh HR Hdiff)
          as (_ & _ & Hg).
        contradiction.
      + unfold bucket_at. rewrite Hbk, Hheap.
        destruct (buckets s !! path') as [q|] eqn:Hq; [|reflexivity].
        apply lookup_insert_ne. intros <-. apply Hne.
        exact (wf_inj s Hwf _ _ _ Hq Hb).
    - rewrite (Release_absent s path headers Hb) in HR. injection HR as <-.
      repeat split. }
  destruct Hsame as (Hg & Hc & Hs & Hat).
  destruct (Acquire_depends_on s1 s path' Hwf1 Hwf Hg Hc Hs Hat)
    as (s2 & s2' & HA1 & HA2 & H1 & H2 & H3 & H4).
  exists s1, s2, s2'. repeat split; assumption.
Qed.
End Limiter.

(** * The library models on concrete inputs *)

Example canonical_remaining :
  http.CanonicalHeaderKey "X-RateLimit-Remaining" = "X-Ratelimit-Remaining".
Proof. reflexivity. Qed.

Example Atoi_2 : strconv.Atoi "2" = (2, None).
Proof. reflexivity. Qed.

Example Atoi_neg : strconv.Atoi "-15" = (-15, None).
Proof. reflexivity. Qed.

Example Atoi_big : strconv.Atoi "9223372036854775808" = (maxInt64, Some strconv.ErrRange).
Proof. reflexivity. Qed.

Example Atoi_bad : strconv.Atoi "1.5" = (0, Some strconv.ErrSyntax).
Proof. reflexivity. Qed.

Example ParseUint_5 : strconv.ParseUint "5" = (5, None).
Proof. reflexivity. Qed.

Example ParseUint_max : strconv.ParseUint "18446744073709551615" = (maxUint64, None).
Proof. reflexivity. Qed.

Example ParseUint_over : strconv.ParseUint "18446744073709551616" = (maxUint64, Some strconv.ErrRange).
Proof. reflexivity. Qed.

Example ParseUint_abc : strconv.ParseUint "abc" = (0, Some strconv.ErrSyntax).
Proof. reflexivity. Qed.

Example Atoi_overflowing_seconds : strconv.Atoi "9223372037" = (9223372037, None).
Proof. reflexivity. Qed.

Example int64_of_float_truncates : int64_of_float (-2.5)%float = -2.
Proof. reflexivity. Qed.

Example int64_of_float_infinity : int64_of_float infinity = minInt64.
Proof. reflexivity. Qed.

Example zero_Time_is_before_the_epoch : time.After 0 time.zero = true.
Proof. reflexivity. Qed.

(** * Counterexamples and instances *)

(** C1 as stated fails.  The bucket of ["k"] has the zero [reset]; the
    headers hold Retry-After: 2 and a malformed X-RateLimit-Remaining.
    [Release] at the instant 1000 returns with [reset] set to two seconds
    later: the state is not as it was. *)
Lemma bad_Remaining_keeps_earlier_update :
  let s := one_bucket 1000 time.zero (mkBucket time.zero 0) in
  let headers : http.Header :=
    {[ "Retry-After" := ["2"]; "X-Ratelimit-Remaining" := ["abc"] ]} in
  bucket_at s "k" = Some (mkBucket time.zero 0) /\
  strconv.ParseUint (http.Get headers "X-RateLimit-Remaining")
    = (0, Some strconv.ErrSyntax) /\
  Release ParseFloat_sample "k" headers s
    = Next tt (one_bucket 1000 time.zero (mkBucket 2000001000 0)) /\
  Release ParseFloat_sample "k" headers s <> Next tt s.
Proof.
  cbv zeta. repeat split; try (vm_compute; reflexivity).
  vm_compute. discriminate.
Qed.

Lemma wf_one_bucket now g v : is_uint64 (remaining v) -> wf (one_bucket now g v).
Proof.
  intros Hv. split; simpl.
  - intros path p H. apply lookup_singleton_Some in H as [_ <-].
    rewrite lookup_singleton_eq. eauto.
  - intros path1 path2 p H1 H2.
    apply lookup_singleton_Some in H1 as [<- _].
    apply lookup_singleton_Some in H2 as [<- _]. reflexivity.
  - intros p w H. apply lookup_singleton_Some in H as [_ <-]. exact Hv.
Qed.

Lemma Release_parse_failure_witness :
  let s := one_bucket 1000 time.zero (mkBucket time.zero 7) in
  let headers : http.Header :=
    {[ "Retry-After" := ["2"]; "X-Ratelimit-Remaining" := ["abc"] ]} in
  buckets s !! "k" = Some 1%positive /\
  heap s !! 1%positive = Some (mkBucket time.zero 7) /\
  http.Get headers "X-RateLimit-Remaining" <> "" /\
  (strconv.ParseUint (http.Get headers "X-RateLimit-Remaining")).2 <> None /\
  exists s' v',
    Release ParseFloat_sample "k" headers s = Next tt s' /\
    bucket_at s' "k" = Some v' /\ remaining v' = 7.
Proof.
  cbv zeta.
  assert (Hb : buckets (one_bucket 1000 time.zero (mkBucket time.zero 7)) !! "k"
               = Some 1%positive) by (vm_compute; reflexivity).
  assert (Hh : heap (one_bucket 1000 time.zero (mkBucket time.zero 7)) !! 1%positive
               = Some (mkBucket time.zero 7)) by (vm_compute; reflexivity).
  split; [exact Hb|]. split; [exact Hh|].
  split; [vm_compute; discriminate|]. split; [vm_compute; discriminate|].
  apply (Release_parse_failure ParseFloat_sample _ "k" _ _ _ Hb Hh);
    vm_compute; discriminate.
Defined.

(** C2 as stated fails.  At the instant 1000 s the global cool-down ends at
    1010 s, and the bucket of ["k"] is exhausted until 1005 s.  [Acquire]
    sleeps 10.25 s for the global cool-down, then 5.25 s more for the
    bucket, which it compares with the instant 1000 s read on entry; had it
    read the clock again it would not sleep for the bucket. *)
Lemma Acquire_sleeps_on_stale_reading :
  let s := one_bucket (1000 * time.Second) (1010 * time.Second)
                      (mkBucket (1005 * time.Second) 0) in
  time.After (global s) (clock s) = true /\
  (exists s1, Acquire "k" s = Next tt s1 /\
              sleeps s1 = [10250000000; 5250000000]) /\
  (exists s2, Acquire_rereading_now "k" s = Next tt s2 /\
              sleeps s2 = [10250000000]) /\
  Acquire "k" s <> Acquire_rereading_now "k" s.
Proof.
  cbv zeta. split; [reflexivity|].
  split; [eexists; split; vm_compute; reflexivity|].
  split; [eexists; split; vm_compute; reflexivity|].
  vm_compute. discriminate.
Qed.

Lemma Acquire_single_time_reading_witness :
  let s := one_bucket (1000 * time.Second) (1010 * time.Second)
                      (mkBucket (1005 * time.Second) 0) in
  wf s /\
  exists s', Acquire "k" s = Next tt s' /\
             sleeps s' = [10250000000; 5250000000].
Proof.
  cbv zeta.
  assert (Hwf : wf (one_bucket (1000 * time.Second) (1010 * time.Second)
                               (mkBucket (1005 * time.Second) 0)))
    by (apply wf_one_bucket; vm_compute; split; discriminate).
  split; [exact Hwf|].
  destruct (Acquire_single_time_reading _ "k" Hwf) as (s' & HA & Hs).
  exists s'. split; [exact HA|]. rewrite Hs. vm_compute. reflexivity.
Defined.

(** C3 as stated fails.  Retry-After: 9223372037 is an integer, but that
    many seconds is more nanoseconds than an [int64] holds: the product
    wraps around and [reset] lands before the call instead of
    9223372037 seconds after it. *)
Lemma retry_seconds_overflow_Duration :
  let s := one_bucket 1000 time.zero (mkBucket time.zero 0) in
  let headers : http.Header := {[ "Retry-After" := ["9223372037"] ]} in
  bucket_at s "k" = Some (mkBucket time.zero 0) /\
  strconv.Atoi (http.Get headers "Retry-After") = (9223372037, None) /\
  Release ParseFloat_sample "k" headers s
    = Next tt (one_bucket 1000 time.zero (mkBucket (-9223372036709550616) 0)) /\
  -9223372036709550616 <> time.Add (clock s) (9223372037 * time.Second).
Proof.
  cbv zeta. repeat split; try (vm_compute; reflexivity).
  vm_compute. discriminate.
Qed.

Lemma Release_retry_after_witness :
  let s := one_bucket 1000 time.zero (mkBucket time.zero 0) in
  let headers : http.Header :=
    {[ "Retry-After" := ["2"]; "X-Ratelimit-Global" := ["true"];
       "X-Ratelimit-Reset" := ["1700000000.5"] ]} in
  buckets s !! "k" = Some 1%positive /\
  heap s !! 1%positive = Some (mkBucket time.zero 0) /\
  http.Get headers "Retry-After" <> "" /\
  strconv.Atoi (http.Get headers "Retry-After") = (2, None) /\
  -9223372036 <= 2 <= 9223372036 /\
  exists s' v',
    Release ParseFloat_sample "k" headers s = Next tt s' /\
    bucket_at s' "k" = Some v' /\
    global s' = 2000001000 /\ reset v' = time.zero.
Proof.
  cbv zeta.
  assert (Hb : buckets (one_bucket 1000 time.zero (mkBucket time.zero 0)) !! "k"
               = Some 1%positive) by (vm_compute; reflexivity).
  assert (Hh : heap (one_bucket 1000 time.zero (mkBucket time.zero 0)) !! 1%positive
               = Some (mkBucket time.zero 0)) by (vm_compute; reflexivity).
  assert (Hn : -9223372036 <= 2 <= 9223372036) by lia.
  split; [exact Hb|]. split; [exact Hh|].
  split; [vm_compute; discriminate|]. split; [vm_compute; reflexivity|].
  split; [exact Hn|].
  destruct (Release_retry_after ParseFloat_sample _ "k"
              {[ "Retry-After" := ["2"]; "X-Ratelimit-Global" := ["true"];
                 "X-Ratelimit-Reset" := ["1700000000.5"] ]} _ _ 2 Hb Hh)
    as (s' & v' & HR & Hat & Hg & _);
    [vm_compute; discriminate | vm_compute; reflexivity | exact Hn |].
  exists s', v'. split; [exact HR|]. split; [exact Hat|].
  rewrite bool_decide_eq_true_2 in Hg by (vm_compute; discriminate).
  exact Hg.
Defined.

Lemma Release_malformed_suppresses_remaining_witness :
  let s := one_bucket 1000 time.zero (mkBucket time.zero 0) in
  let headers : http.Header :=
    {[ "Retry-After" := ["soon"]; "X-Ratelimit-Remaining" := ["5"] ]} in
  buckets s !! "k" = Some 1%positive /\
  heap s !! 1%positive = Some (mkBucket time.zero 0) /\
  (http.Get headers "Retry-After" <> "" /\
   (strconv.Atoi (http.Get headers "Retry-After")).2 <> None) /\
  http.Get headers "X-RateLimit-Remaining" <> "" /\
  strconv.ParseUint (http.Get headers "X-RateLimit-Remaining") = (5, None) /\
  Release ParseFloat_sample "k" headers s = Next tt s /\
  bucket_at s "k" = Some (mkBucket time.zero 0).
Proof.
  cbv zeta.
  assert (Hb : buckets (one_bucket 1000 time.zero (mkBucket time.zero 0)) !! "k"
               = Some 1%positive) by (vm_compute; reflexivity).
  assert (Hh : heap (one_bucket 1000 time.zero (mkBucket time.zero 0)) !! 1%positive
               = Some (mkBucket time.zero 0)) by (vm_compute; reflexivity).
  assert (Hbad : http.Get {[ "Retry-After" := ["soon"];
                             "X-Ratelimit-Remaining" := ["5"] ]} "Retry-After" <> "" /\
                 (strconv.Atoi (http.Get {[ "Retry-After" := ["soon"];
                             "X-Ratelimit-Remaining" := ["5"] ]} "Retry-After")).2
                   <> None)
    by (split; vm_compute; discriminate).
  split; [exact Hb|]. split; [exact Hh|]. split; [exact Hbad|].
  split; [vm_compute; discriminate|]. split; [vm_compute; reflexivity|].
  apply (Release_malformed_suppresses_remaining ParseFloat_sample _ "k" _ _ _ 5
           Hb Hh (or_introl Hbad)).
  - vm_compute; discriminate.
  - vm_compute; reflexivity.
Defined.


Lemma Acquire_Release_Acquire_witness :
  let s := one_bucket 1000 time.zero (mkBucket 5000 1) in
  buckets s !! "k" = Some 1%positive /\
  heap s !! 1%positive = Some (mkBucket 5000 1) /\
  exists s1 s2 s3,
    Acquire "k" s = Next tt s1 /\
    bucket_at s1 "k" = Some (mkBucket 5000 0) /\
    Release ParseFloat_sample "k" {[ "X-Ratelimit-Remaining" := ["5"] ]}
      (elapse 10 s1) = Next tt s2 /\
    bucket_at s2 "k" = Some (mkBucket 5000 5) /\
    Acquire "k" (elapse 10 s2) = Next tt s3 /\
    sleeps s3 = (sleeps s2 ++ global_wait (elapse 10 s2))%list.
Proof.
  cbv zeta.
  assert (Hb : buckets (one_bucket 1000 time.zero (mkBucket 5000 1)) !! "k"
               = Some 1%positive) by (vm_compute; reflexivity).
  assert (Hh : heap (one_bucket 1000 time.zero (mkBucket 5000 1)) !! 1%positive
               = Some (mkBucket 5000 1)) by (vm_compute; reflexivity).
  split; [exact Hb|]. split; [exact Hh|].
  exact (Acquire_Release_Acquire ParseFloat_sample _ "k" _ 5000 10 10 Hb Hh).
Defined.

Lemma Release_never_creates_witness :
  let s := one_bucket 1000 time.zero (mkBucket time.zero 0) in
  let headers : http.Header :=
    {[ "Retry-After" := ["2"]; "X-Ratelimit-Remaining" := ["5"] ]} in
  wf s /\
  exists s',
    Release ParseFloat_sample "j" headers s = Next tt s' /\
    buckets s' = buckets s /\
    dom (heap s') = dom (heap s) /\
    (buckets s !! "j" = None -> s' = s).
Proof.
  cbv zeta.
  assert (Hwf : wf (one_bucket 1000 time.zero (mkBucket time.zero 0)))
    by (apply wf_one_bucket; vm_compute; split; discriminate).
  split; [exact Hwf|].
  exact (Release_never_creates ParseFloat_sample _ "j" _ Hwf).
Defined.

Lemma Acquire_first_call_witness :
  let s := NewLimiter 1000 in
  buckets s !! "k" = None /\
  exists s',
    Acquire "k" s = Next tt s' /\
    sleeps s' = (sleeps s ++ global_wait s)%list /\
    bucket_at s' "k" = Some (mkBucket time.zero 0).
Proof.
  cbv zeta.
  assert (Hb : buckets (NewLimiter 1000) !! "k" = None)
    by (vm_compute; reflexivity).
  split; [exact Hb|].
  exact (proj2 (Acquire_first_call (NewLimiter 1000) "k" Hb)).
Defined.


Lemma Acquire_frame_witness :
  let s := one_bucket 0 time.zero (mkBucket time.zero 0) in
  reachable ParseFloat_sample s /\
  exists s',
    Acquire "j" s = Next tt s' /\
    global s' = global s /\
    (forall path', path' <> "j" -> bucket_at s' path' = bucket_at s path') /\
    bucket_at s' "j" = Some (mkBucket time.zero 0).
Proof.
  cbv zeta.
  assert (Hr : reachable ParseFloat_sample
                 (one_bucket 0 time.zero (mkBucket time.zero 0))).
  { apply (reach_Acquire ParseFloat_sample (NewLimiter 0) "k").
    - apply reach_NewLimiter.
    - vm_compute. reflexivity. }
  split; [exact Hr|].
  destruct (Acquire_frame ParseFloat_sample _ "j" Hr) as (s' & HA & Hg & Ho & Hj).
  exists s'. split; [exact HA|]. split; [exact Hg|]. split; [exact Ho|].
  rewrite Hj. vm_compute. reflexivity.
Defined.

(** * Instances of the further properties *)

Ltac by_computation :=
  vm_compute; first [reflexivity | discriminate | split; discriminate].

Lemma NewLimiter_then_Acquire_witness :
  time.zero <= 1000 /\
  exists s', Acquire "k" (NewLimiter 1000) = Next tt s' /\ sleeps s' = [].
Proof.
  assert (H : time.zero <= 1000) by by_computation.
  split; [exact H|].
  destruct (NewLimiter_then_Acquire 1000 "k" H) as (s' & HA & Hs & _).
  exists s'. split; assumption.
Defined.

Lemma getBucket_idempotent_witness :
  let s1 := one_bucket 0 time.zero (mkBucket time.zero 1) in
  getBucket "k" true (NewLimiter 0) = Next (Some 1%positive) s1 /\
  exists p, Some 1%positive = Some p /\ buckets s1 !! "k" = Some p /\
            getBucket "k" false s1 = Next (Some p) s1.
Proof.
  cbv zeta.
  assert (H : getBucket "k" true (NewLimiter 0)
              = Next (Some 1%positive) (one_bucket 0 time.zero (mkBucket time.zero 1)))
    by by_computation.
  split; [exact H|].
  exact (getBucket_idempotent _ "k" false _ _ H).
Defined.

Lemma Acquire_registry_grows_witness :
  let s := one_bucket 1000 time.zero (mkBucket time.zero 0) in
  wf s /\
  exists s', Acquire "j" s = Next tt s' /\
             dom (buckets s') = {[ "j" ]} ∪ dom (buckets s).
Proof.
  cbv zeta.
  assert (Hwf : wf (one_bucket 1000 time.zero (mkBucket time.zero 0)))
    by (apply wf_one_bucket; by_computation).
  split; [exact Hwf|].
  destruct (Acquire_registry_grows _ "j" Hwf) as (s' & HA & Hd & _).
  exists s'. split; assumption.
Defined.

Lemma reachable_buckets_distinct_witness :
  let s := one_bucket 0 time.zero (mkBucket time.zero 0) in
  reachable ParseFloat_sample s /\
  forall path, is_Some (buckets s !! path) -> is_Some (bucket_at s path).
Proof.
  cbv zeta.
  assert (Hr : reachable ParseFloat_sample
                 (one_bucket 0 time.zero (mkBucket time.zero 0))).
  { apply (reach_Acquire ParseFloat_sample (NewLimiter 0) "k").
    - apply reach_NewLimiter.
    - by_computation. }
  split; [exact Hr|].
  exact (proj1 (reachable_buckets_distinct ParseFloat_sample _ Hr)).
Defined.

Lemma reachable_no_panic_witness :
  let s := one_bucket 0 time.zero (mkBucket time.zero 0) in
  reachable ParseFloat_sample s /\
  exists s', Release ParseFloat_sample "k" {[ "Retry-After" := ["2"] ]} s
             = Next tt s'.
Proof.
  cbv zeta.
  assert (Hr : reachable ParseFloat_sample
                 (one_bucket 0 time.zero (mkBucket time.zero 0))).
  { apply (reach_Acquire ParseFloat_sample (NewLimiter 0) "k").
    - apply reach_NewLimiter.
    - by_computation. }
  split; [exact Hr|].
  exact (proj2 (reachable_no_panic ParseFloat_sample _ "k" _ Hr)).
Defined.

Lemma Acquire_waits_for_reset_witness :
  let s := one_bucket 1000 time.zero (mkBucket 5000 0) in
  buckets s !! "k" = Some 1%positive /\
  heap s !! 1%positive = Some (mkBucket 5000 0) /\
  clock s < 5000 /\ 5000 - clock s <= maxInt64 - ExtraDelay /\
  exists s', Acquire "k" s = Next tt s' /\ clock s' = 250005000.
Proof.
  cbv zeta.
  assert (Hb : buckets (one_bucket 1000 time.zero (mkBucket 5000 0)) !! "k"
               = Some 1%positive) by by_computation.
  assert (Hh : heap (one_bucket 1000 time.zero (mkBucket 5000 0)) !! 1%positive
               = Some (mkBucket 5000 0)) by by_computation.
  assert (H1 : clock (one_bucket 1000 time.zero (mkBucket 5000 0)) < 5000)
    by by_computation.
  assert (H2 : 5000 - clock (one_bucket 1000 time.zero (mkBucket 5000 0))
               <= maxInt64 - ExtraDelay) by by_computation.
  split; [exact Hb|]. split; [exact Hh|]. split; [exact H1|]. split; [exact H2|].
  destruct (Acquire_waits_for_reset _ "k" _ _ Hb Hh eq_refl H1 H2)
    as (s' & HA & _ & _ & Hex).
  exists s'. split; [exact HA|].
  destruct Hex as [Hc _]; [by_computation|]. rewrite Hc. by_computation.
Defined.

Lemma Acquire_waits_for_global_witness :
  let s := one_bucket 1000 5000 (mkBucket time.zero 1) in
  wf s /\ clock s < global s /\
  global s - clock s <= maxInt64 - ExtraDelay /\
  exists s', Acquire "j" s = Next tt s' /\ global s + ExtraDelay <= clock s'.
Proof.
  cbv zeta.
  assert (Hwf : wf (one_bucket 1000 5000 (mkBucket time.zero 1)))
    by (apply wf_one_bucket; by_computation).
  assert (H1 : clock (one_bucket 1000 5000 (mkBucket time.zero 1))
               < global (one_bucket 1000 5000 (mkBucket time.zero 1)))
    by by_computation.
  assert (H2 : global (one_bucket 1000 5000 (mkBucket time.zero 1))
               - clock (one_bucket 1000 5000 (mkBucket time.zero 1))
               <= maxInt64 - ExtraDelay) by by_computation.
  split; [exact Hwf|]. split; [exact H1|]. split; [exact H2|].
  exact (Acquire_waits_for_global _ "j" Hwf H1 H2).
Defined.

Lemma Acquire_far_reset_does_not_wait_witness :
  let s := one_bucket 0 time.zero (mkBucket maxInt64 0) in
  buckets s !! "k" = Some 1%positive /\
  heap s !! 1%positive = Some (mkBucket maxInt64 0) /\
  maxInt64 - ExtraDelay < maxInt64 - clock s /\
  global s <= clock s /\
  exists s' d, Acquire "k" s = Next tt s' /\ clock s' = clock s /\
               sleeps s' = (sleeps s ++ [d])%list /\ d < 0.
Proof.
  cbv zeta.
  assert (Hb : buckets (one_bucket 0 time.zero (mkBucket maxInt64 0)) !! "k"
               = Some 1%positive) by by_computation.
  assert (Hh : heap (one_bucket 0 time.zero (mkBucket maxInt64 0)) !! 1%positive
               = Some (mkBucket maxInt64 0)) by by_computation.
  assert (H1 : maxInt64 - ExtraDelay
               < maxInt64 - clock (one_bucket 0 time.zero (mkBucket maxInt64 0)))
    by by_computation.
  assert (H2 : global (one_bucket 0 time.zero (mkBucket maxInt64 0))
               <= clock (one_bucket 0 time.zero (mkBucket maxInt64 0)))
    by by_computation.
  split; [exact Hb|]. split; [exact Hh|]. split; [exact H1|]. split; [exact H2|].
  exact (Acquire_far_reset_does_not_wait _ "k" _ _ Hb Hh eq_refl H1 H2).
Defined.

Lemma Acquire_after_reset_passed_witness :
  let s := one_bucket 1000 time.zero (mkBucket 500 0) in
  buckets s !! "k" = Some 1%positive /\
  heap s !! 1%positive = Some (mkBucket 500 0) /\
  500 <= clock s /\
  exists s', Acquire "k" s = Next tt s' /\
             bucket_at s' "k" = Some (mkBucket 500 0) /\
             sleeps s' = (sleeps s ++ global_wait s)%list.
Proof.
  cbv zeta.
  assert (Hb : buckets (one_bucket 1000 time.zero (mkBucket 500 0)) !! "k"
               = Some 1%positive) by by_computation.
  assert (Hh : heap (one_bucket 1000 time.zero (mkBucket 500 0)) !! 1%positive
               = Some (mkBucket 500 0)) by by_computation.
  assert (H1 : 500 <= clock (one_bucket 1000 time.zero (mkBucket 500 0)))
    by by_computation.
  split; [exact Hb|]. split; [exact Hh|]. split; [exact H1|].
  exact (Acquire_after_reset_passed _ "k" _ _ Hb Hh eq_refl H1).
Defined.

Lemma Acquire_times_counts_down_witness :
  let s := one_bucket 1000 time.zero (mkBucket 0 5) in
  buckets s !! "k" = Some 1%positive /\
  heap s !! 1%positive = Some (mkBucket 0 5) /\
  is_uint64 5 /\ Z.of_nat 3 <= 5 /\ global s <= clock s /\
  exists s', Acquire_times 3 "k" s = Next tt s' /\
             bucket_at s' "k" = Some (mkBucket 0 2) /\ sleeps s' = [].
Proof.
  cbv zeta.
  assert (Hb : buckets (one_bucket 1000 time.zero (mkBucket 0 5)) !! "k"
               = Some 1%positive) by by_computation.
  assert (Hh : heap (one_bucket 1000 time.zero (mkBucket 0 5)) !! 1%positive
               = Some (mkBucket 0 5)) by by_computation.
  assert (H1 : is_uint64 5) by by_computation.
  assert (H2 : Z.of_nat 3 <= 5) by by_computation.
  assert (H3 : global (one_bucket 1000 time.zero (mkBucket 0 5))
               <= clock (one_bucket 1000 time.zero (mkBucket 0 5)))
    by by_computation.
  split; [exact Hb|]. split; [exact Hh|]. split; [exact H1|].
  split; [exact H2|]. split; [exact H3|].
  destruct (Acquire_times_counts_down 3 _ "k" _ _ Hb Hh H1 H2 H3)
    as (s' & HA & Hat & Hs & _).
  exists s'. split; [exact HA|]. split; [exact Hat | exact Hs].
Defined.

Lemma Release_frame_witness :
  let s := one_bucket 1000 time.zero (mkBucket time.zero 0) in
  let headers : http.Header :=
    {[ "Retry-After" := ["2"]; "X-Ratelimit-Remaining" := ["5"] ]} in
  wf s /\
  exists s',
    Release ParseFloat_sample "k" headers s = Next tt s' /\
    clock s' = clock s /\ sleeps s' = sleeps s /\
    bucket_at s' "j" = bucket_at s "j".
Proof.
  cbv zeta.
  assert (Hwf : wf (one_bucket 1000 time.zero (mkBucket time.zero 0)))
    by (apply wf_one_bucket; by_computation).
  split; [exact Hwf|].
  destruct (Release_frame ParseFloat_sample _ "k"
              {[ "Retry-After" := ["2"]; "X-Ratelimit-Remaining" := ["5"] ]} Hwf)
    as (s' & HR & Hc & Hs & Ho & _).
  exists s'. split; [exact HR|]. split; [exact Hc|]. split; [exact Hs|].
  apply Ho. discriminate.
Defined.

Lemma Release_without_headers_witness :
  let s := one_bucket 1000 time.zero (mkBucket time.zero 0) in
  let headers : http.Header := {[ "X-Ratelimit-Global" := ["true"] ]} in
  http.Get headers "Retry-After" = "" /\
  http.Get headers "X-RateLimit-Reset" = "" /\
  http.Get headers "X-RateLimit-Remaining" = "" /\
  Release ParseFloat_sample "k" headers s = Next tt s.
Proof.
  cbv zeta.
  assert (H1 : http.Get {[ "X-Ratelimit-Global" := ["true"] ]} "Retry-After" = "")
    by by_computation.
  assert (H2 : http.Get {[ "X-Ratelimit-Global" := ["true"] ]} "X-RateLimit-Reset" = "")
    by by_computation.
  assert (H3 : http.Get {[ "X-Ratelimit-Global" := ["true"] ]}
                 "X-RateLimit-Remaining" = "") by by_computation.
  split; [exact H1|]. split; [exact H2|]. split; [exact H3|].
  exact (Release_without_headers ParseFloat_sample _ "k" _ H1 H2 H3).
Defined.

Lemma Release_sets_remaining_only_witness :
  let s := one_bucket 1000 time.zero (mkBucket 700 0) in
  let headers : http.Header := {[ "X-Ratelimit-Remaining" := ["5"] ]} in
  buckets s !! "k" = Some 1%positive /\
  heap s !! 1%positive = Some (mkBucket 700 0) /\
  http.Get headers "Retry-After" = "" /\
  http.Get headers "X-RateLimit-Reset" = "" /\
  http.Get headers "X-RateLimit-Remaining" <> "" /\
  strconv.ParseUint (http.Get headers "X-RateLimit-Remaining") = (5, None) /\
  exists s',
    Release ParseFloat_sample "k" headers s = Next tt s' /\
    bucket_at s' "k" = Some (mkBucket 700 5).
Proof.
  cbv zeta.
  assert (Hb : buckets (one_bucket 1000 time.zero (mkBucket 700 0)) !! "k"
               = Some 1%positive) by by_computation.
  assert (Hh : heap (one_bucket 1000 time.zero (mkBucket 700 0)) !! 1%positive
               = Some (mkBucket 700 0)) by by_computation.
  assert (H1 : http.Get {[ "X-Ratelimit-Remaining" := ["5"] ]} "Retry-After" = "")
    by by_computation.
  assert (H2 : http.Get {[ "X-Ratelimit-Remaining" := ["5"] ]} "X-RateLimit-Reset" = "")
    by by_computation.
  assert (H3 : http.Get {[ "X-Ratelimit-Remaining" := ["5"] ]}
                 "X-RateLimit-Remaining" <> "") by by_computation.
  assert (H4 : strconv.ParseUint
                 (http.Get {[ "X-Ratelimit-Remaining" := ["5"] ]}
                    "X-RateLimit-Remaining") = (5, None)) by by_computation.
  split; [exact Hb|]. split; [exact Hh|]. split; [exact H1|].
  split; [exact H2|]. split; [exact H3|]. split; [exact H4|].
  destruct (Release_sets_remaining_only ParseFloat_sample _ "k" _ _ _ 5
              Hb Hh H1 H2 H3 H4) as (s' & HR & Hat & _).
  exists s'. split; assumption.
Defined.

Lemma Release_global_blocks_every_path_witness :
  let s := one_bucket 1000 time.zero (mkBucket time.zero 0) in
  let headers : http.Header :=
    {[ "Retry-After" := ["2"]; "X-Ratelimit-Global" := ["true"] ]} in
  wf s /\
  buckets s !! "k" = Some 1%positive /\
  heap s !! 1%positive = Some (mkBucket time.zero 0) /\
  http.Get headers "Retry-After" <> "" /\
  strconv.Atoi (http.Get headers "Retry-After") = (2, None) /\
  http.Get headers "X-RateLimit-Global" <> "" /\
  0 <= 2 <= 9223372036 /\ 0 <= 0 /\
  exists s1 s2,
    Release ParseFloat_sample "k" headers s = Next tt s1 /\
    Acquire "j" (elapse 0 s1) = Next tt s2 /\
    clock s + 2 * time.Second + ExtraDelay <= clock s2.
Proof.
  cbv zeta.
  assert (Hwf : wf (one_bucket 1000 time.zero (mkBucket time.zero 0)))
    by (apply wf_one_bucket; by_computation).
  assert (Hb : buckets (one_bucket 1000 time.zero (mkBucket time.zero 0)) !! "k"
               = Some 1%positive) by by_computation.
  assert (Hh : heap (one_bucket 1000 time.zero (mkBucket time.zero 0)) !! 1%positive
               = Some (mkBucket time.zero 0)) by by_computation.
  assert (H1 : http.Get {[ "Retry-After" := ["2"]; "X-Ratelimit-Global" := ["true"] ]}
                 "Retry-After" <> "") by by_computation.
  assert (H2 : strconv.Atoi
                 (http.Get {[ "Retry-After" := ["2"]; "X-Ratelimit-Global" := ["true"] ]}
                    "Retry-After") = (2, None)) by by_computation.
  assert (H3 : http.Get {[ "Retry-After" := ["2"]; "X-Ratelimit-Global" := ["true"] ]}
                 "X-RateLimit-Global" <> "") by by_computation.
  assert (H4 : 0 <= 2 <= 9223372036) by lia.
  assert (H5 : 0 <= 0) by lia.
  split; [exact Hwf|]. split; [exact Hb|]. split; [exact Hh|].
  split; [exact H1|]. split; [exact H2|]. split; [exact H3|].
  split; [exact H4|]. split; [exact H5|].
  destruct (Release_global_blocks_every_path ParseFloat_sample _ "k" "j" _ _ _ 2 0
              Hwf Hb Hh H1 H2 H3 H4 H5) as (s1 & s2 & HR & HA & _ & Hlate).
  exists s1, s2. split; [exact HR|]. split; [exact HA|].
  apply Hlate. by_computation.
Defined.


Lemma Release_idempotent_witness :
  let s := one_bucket 1000 time.zero (mkBucket time.zero 0) in
  let s' := one_bucket 1000 time.zero (mkBucket 2000001000 0) in
  let headers : http.Header := {[ "Retry-After" := ["2"] ]} in
  Release ParseFloat_sample "k" headers s = Next tt s' /\
  Release ParseFloat_sample "k" headers s' = Next tt s'.
Proof.
  cbv zeta.
  assert (H : Release ParseFloat_sample "k" {[ "Retry-After" := ["2"] ]}
                (one_bucket 1000 time.zero (mkBucket time.zero 0))
              = Next tt (one_bucket 1000 time.zero (mkBucket 2000001000 0)))
    by by_computation.
  split; [exact H|].
  exact (Release_idempotent ParseFloat_sample _ "k" _ _ H).
Defined.

Lemma Acquire_with_quota_does_not_wait_witness :
  let s := one_bucket 1000 time.zero (mkBucket 5000 3) in
  buckets s !! "k" = Some 1%positive /\
  heap s !! 1%positive = Some (mkBucket 5000 3) /\
  0 < 3 <= maxUint64 /\
  exists s', Acquire "k" s = Next tt s' /\
             sleeps s' = (sleeps s ++ global_wait s)%list /\
             bucket_at s' "k" = Some (mkBucket 5000 2).
Proof.
  cbv zeta.
  assert (Hb : buckets (one_bucket 1000 time.zero (mkBucket 5000 3)) !! "k"
               = Some 1%positive) by by_computation.
  assert (Hh : heap (one_bucket 1000 time.zero (mkBucket 5000 3)) !! 1%positive
               = Some (mkBucket 5000 3)) by by_computation.
  assert (H1 : 0 < 3 <= maxUint64) by (split; by_computation).
  split; [exact Hb|]. split; [exact Hh|]. split; [exact H1|].
  exact (Acquire_with_quota_does_not_wait _ "k" _ _ Hb Hh H1).
Defined.


Lemma Release_does_not_affect_other_path_witness :
  let s := one_bucket 1000 time.zero (mkBucket time.zero 0) in
  let headers : http.Header := {[ "Retry-After" := ["2"] ]} in
  wf s /\ "j" <> "k" /\ http.Get headers "X-RateLimit-Global" = "" /\
  exists s1 s2 s2',
    Release ParseFloat_sample "k" headers s = Next tt s1 /\
    Acquire "j" s1 = Next tt s2 /\ Acquire "j" s = Next tt s2' /\
    sleeps s2 = sleeps s2' /\ clock s2 = clock s2'.
Proof.
  cbv zeta.
  assert (Hwf : wf (one_bucket 1000 time.zero (mkBucket time.zero 0)))
    by (apply wf_one_bucket; by_computation).
  assert (Hne : "j" <> "k") by discriminate.
  assert (Hg : http.Get {[ "Retry-After" := ["2"] ]} "X-RateLimit-Global" = "")
    by by_computation.
  split; [exact Hwf|]. split; [exact Hne|]. split; [exact Hg|].
  destruct (Release_does_not_affect_other_path ParseFloat_sample _ "k" "j" _
              Hwf Hne Hg) as (s1 & s2 & s2' & HR & HA1 & HA2 & Hs & Hc & _).
  exists s1, s2, s2'. repeat split; assumption.
Defined.
